(** * Book catalogue pipeline (vector.py): schema normalisation, document
      synthesis and the build-or-load step of the vector store

    The development embeds the module-level script of [vector.py]:
    [load_jsonl_to_df], the exploded author frame, the four document
    passes, and the FAISS build-or-load branch.  pandas frames are lists of
    rows, a missing numeric cell (NaN) is [None], Python exceptions are the
    [Raise] results of a small error monad, and the file system is a finite
    map from paths to what is stored there.

    Numbers: identifiers, years and counts are integers, ratings are
    rationals.  They stand for the [int64] and [float64] cells of the frame
    in the range where these are exact and where Python prints a float with
    all its digits (magnitude below 1e15, the integers called [plain]
    below); a statement that reads a printed year, decade or ratings count
    carries that range as a hypothesis.  A numeric column is [int64] or
    [float64] as pandas infers it from all of its cells.

    Texts: [pd.read_json] types the columns of every frame it returns,
    and a column of texts that all read as numbers becomes a column of
    numbers.  The title column is followed through this step, frame by
    frame; the other texts of a record (identifier, cover reference,
    unreadable numeric cells) are kept as they are written, which is what
    the frame holds when they do not read as numbers ([literal]).
    Statements that start from the text of the file carry [literal] where
    they need it. *)

From Stdlib Require Import ZArith QArith Lia.
From stdpp Require Import base option list strings pretty sorting gmap.
From Equations Require Import Equations.

Local Open Scope Z_scope.

(** ** Python runtime stand-ins *)

Module Py.

(** Exceptions the script can raise. *)
Inductive exn :=
| ValueError (msg : string)
| KeyError (key : string)
| RuntimeError (msg : string).

Inductive result (A : Type) :=
| Ok (a : A)
| Raise (e : exn).
Arguments Ok {A} a.
Arguments Raise {A} e.

Definition bind {A B} (m : result A) (k : A → result B) : result B :=
  match m with
  | Ok a => k a
  | Raise e => Raise e
  end.

(** A [for] loop whose body may raise: it stops at the first exception. *)
Fixpoint for_each {A B} (body : A → result B) (l : list A) : result (list B) :=
  match l with
  | [] => Ok []
  | x :: l' =>
      bind (body x) (λ y, bind (for_each body l') (λ ys, Ok (y :: ys)))
  end.


(** [str(n)] for an integer. *)
Definition str_int (z : Z) : string := pretty z.

(** Digits after the decimal point of [r / d], for [0 <= r < d]; at least
    one digit is printed. *)
Fixpoint frac_digits (fuel : nat) (r d : Z) : string :=
  match fuel with
  | O => ""
  | S fuel' =>
      let t := 10 * r in
      pretty (t `div` d) +:+
      (if t `mod` d =? 0 then "" else frac_digits fuel' (t `mod` d) d)
  end.

(** [str(x)] for a finite float [x], printed positionally: the integer
    part, a point, and the decimal digits.  This is what Python prints for
    a float whose value is a decimal number of at most 15 significant
    digits with magnitude below 1e16 and not below 1e-4, ratings and
    integral floats such as [1990.0] included.  From 1e16 on Python prints
    an exponent ([1e+16]) and a [float64] no longer holds every integer:
    the statements about printed years, decades and ratings counts are
    made for [plain] integers. *)
Definition str_float (q : Q) : string :=
  let n := Qnum q in
  let d := Z.pos (Qden q) in
  let a := Z.abs n in
  (if n <? 0 then "-" else "") +:+ pretty (a `div` d) +:+ "." +:+
  frac_digits 17 (a `mod` d) d.

(** Characters [str.strip()] removes, among the code points below 256. *)
Definition is_space (c : Ascii.ascii) : bool :=
  let n := Ascii.N_of_ascii c in
  ((9 <=? n) && (n <=? 13) || (28 <=? n) && (n <=? 32)
   || (n =? 133) || (n =? 160))%N.

Fixpoint lstrip (s : string) : string :=
  match s with
  | EmptyString => EmptyString
  | String c s' => if is_space c then lstrip s' else s
  end.

(** Drops the trailing white space: a character is kept when it is not
    white space or something is kept after it. *)
Fixpoint rstrip (s : string) : string :=
  match s with
  | EmptyString => EmptyString
  | String c s' =>
      match rstrip s' with
      | EmptyString => if is_space c then EmptyString else String c EmptyString
      | t => String c t
      end
  end.

Definition strip (s : string) : string := rstrip (lstrip s).

(** [sep.join(l)] *)
Fixpoint join (sep : string) (l : list string) : string :=
  match l with
  | [] => ""
  | [x] => x
  | x :: l' => x +:+ sep +:+ join sep l'
  end.

(** *** [float(s)] on a text

    What [float] accepts: white space, a sign, then [inf], [infinity] or
    [nan] in any case, or digits with an optional point and an optional
    exponent; an underscore may stand between two digits. *)

Inductive float_value :=
| Real (q : Q)
| Infinity (negative : bool)
| NotANumber.

Definition is_digit (c : Ascii.ascii) : bool :=
  let n := Ascii.N_of_ascii c in ((48 <=? n) && (n <=? 57))%N.

(** The white space [float] strips: [str.strip()]'s but the separators
    28..31. *)
Definition is_float_space (c : Ascii.ascii) : bool :=
  let n := Ascii.N_of_ascii c in
  ((9 <=? n) && (n <=? 13) || (n =? 32) || (n =? 133) || (n =? 160))%N.

Fixpoint float_lstrip (s : string) : string :=
  match s with
  | EmptyString => EmptyString
  | String c s' => if is_float_space c then float_lstrip s' else s
  end.

Fixpoint float_rstrip (s : string) : string :=
  match s with
  | EmptyString => EmptyString
  | String c s' =>
      match float_rstrip s' with
      | EmptyString => if is_float_space c then EmptyString else String c EmptyString
      | t => String c t
      end
  end.

(** The text without its underscores; [None] when an underscore does not
    stand between two digits. *)
Fixpoint drop_underscores (after_digit after_underscore : bool) (s : string)
  : option string :=
  match s with
  | EmptyString => if after_underscore then None else Some EmptyString
  | String c s' =>
      if (Ascii.N_of_ascii c =? 95)%N then
        if after_digit then drop_underscores false true s' else None
      else if after_underscore && negb (is_digit c) then None
      else String c <$> drop_underscores (is_digit c) false s'
  end.

(** A leading [-] or [+]. *)
Definition signed (s : string) : bool * string :=
  match s with
  | String c s' =>
      if (Ascii.N_of_ascii c =? 45)%N then (true, s')
      else if (Ascii.N_of_ascii c =? 43)%N then (false, s')
      else (false, s)
  | EmptyString => (false, s)
  end.

(** The longest run of digits at the head of [s]: [acc] with these digits
    appended, their number, and the rest of the text. *)
Fixpoint digits (acc : Z) (s : string) : Z * nat * string :=
  match s with
  | EmptyString => (acc, 0%nat, s)
  | String c s' =>
      if is_digit c then
        let '(v, n, rest) :=
          digits (10 * acc + (Z.of_N (Ascii.N_of_ascii c) - 48)) s' in
        (v, S n, rest)
      else (acc, 0%nat, s)
  end.

(** Nothing, or [e] or [E], an optional sign and at least one digit. *)
Definition exponent (s : string) : option Z :=
  match s with
  | EmptyString => Some 0
  | String c s' =>
      if ((Ascii.N_of_ascii c =? 101) || (Ascii.N_of_ascii c =? 69))%N then
        let '(negative, s'') := signed s' in
        match digits 0 s'' with
        | (v, S _, EmptyString) => Some (if negative then - v else v)
        | _ => None
        end
      else None
  end.

(** [m * 10^e] *)
Definition scale (m e : Z) : Q :=
  if 0 <=? e then inject_Z (m * 10 ^ e) else Qmake m (Z.to_pos (10 ^ (- e))).

(** Digits, an optional point and more digits (one digit at least), and
    an optional exponent. *)
Definition decimal (s : string) : option Q :=
  let '(i, ni, rest) := digits 0 s in
  let '(m, nf, rest') :=
    match rest with
    | String c r =>
        if (Ascii.N_of_ascii c =? 46)%N then digits i r else (i, 0%nat, rest)
    | EmptyString => (i, 0%nat, rest)
    end in
  if (ni + nf =? 0)%nat then None
  else e ← exponent rest'; Some (scale m (e - Z.of_nat nf)).

Definition tolower (c : Ascii.ascii) : Ascii.ascii :=
  let n := Ascii.N_of_ascii c in
  if ((65 <=? n) && (n <=? 90))%N then Ascii.ascii_of_N (n + 32) else c.

Fixpoint lower_ascii (s : string) : string :=
  match s with
  | EmptyString => EmptyString
  | String c s' => String (tolower c) (lower_ascii s')
  end.

(** [float(s)]; [None] is the ValueError.  A number is read as the value
    of its digits. *)
Definition float_of_str (s : string) : option float_value :=
  body ← drop_underscores false false s;
  let '(negative, rest) := signed (float_rstrip (float_lstrip body)) in
  let word := lower_ascii rest in
  if String.eqb word "inf" || String.eqb word "infinity" then
    Some (Infinity negative)
  else if String.eqb word "nan" then Some NotANumber
  else q ← decimal rest; Some (Real (if negative then - q else q)%Q).

(** The text reads as a number. *)
Definition float_text (s : string) : bool :=
  match float_of_str s with Some _ => true | None => false end.

(** [str(x)] for a float that may be infinite. *)
Definition str_float_value (x : float_value) : string :=
  match x with
  | Real q => str_float q
  | Infinity false => "inf"
  | Infinity true => "-inf"
  | NotANumber => "nan"
  end.

End Py.

Import Py.

(** The error monad uses stdpp's [x ← m; k] notation. *)
Global Instance result_ret : MRet result := λ A a, Ok a.
Global Instance result_bind : MBind result := λ A B k m, bind m k.


(** ** Step 1: [load_jsonl_to_df] *)

Module Frame.

(** A numeric field as it stands in the file: a number, [null], or text
    that [pd.to_numeric] cannot read. *)
Inductive cell (A : Type) :=
| Parsed (a : A)
| Null
| Garbled (text : string).
Arguments Parsed {A} a.
Arguments Null {A}.
Arguments Garbled {A} text.

(** The [id] field is an integer or a text. *)
Inductive record_id :=
| IdInt (z : Z)
| IdStr (s : string).

(** One record of [books.jsonl]. *)
Record json_record := {
  j_id : record_id;
  j_title : string;
  j_authors : list string;
  j_publication_year : cell Z;
  j_average_rating : cell Q;
  j_ratings_count : cell Z;
  j_image_url : string
}.

(** A line of the file holds a record or is blank. *)
Definition line := option json_record.

(** A row of the normalised frame [df].  [None] in a numeric column is
    NaN. *)
Record row := {
  book_id : record_id;
  title : string;
  authors : list string;
  publication_year : option Z;
  average_rating : option Q;
  ratings_count : option Z;
  image_url : string;
  decade : option Z
}.

(** The objects on the lines of a text: blank lines are skipped. *)
Definition records (text : list line) : list json_record :=
  omap (λ ln, ln) text.

(** *** Column types of a frame that [pd.read_json] returns

    The reader types every column of the frame it has parsed: a column of
    objects is cast to [float64] when [float] accepts every cell of it, and
    a [float64] column whose cells are all whole numbers in range is cast
    to [int64].  Otherwise the column is left as it is. *)

(** A cell of an [object] column. *)
Inductive scalar :=
| SInt (z : Z)
| SFloat (x : float_value)
| SStr (s : string).

(** A column with its dtype. *)
Inductive series :=
| Int64 (cells : list Z)
| Float64 (cells : list float_value)
| Object (cells : list scalar).

Definition series_length (col : series) : nat :=
  match col with
  | Int64 cells => length cells
  | Float64 cells => length cells
  | Object cells => length cells
  end.

(** The cell as an [int64], when it is a whole number in range. *)
Definition int64_of (x : float_value) : option Z :=
  match x with
  | Real q =>
      let z := Qnum q `div` Z.pos (Qden q) in
      if (Qnum q `mod` Z.pos (Qden q) =? 0) && (- 2 ^ 63 <=? z) && (z <? 2 ^ 63)
      then Some z else None
  | Infinity _ | NotANumber => None
  end.

(** The reader's conversion of a column of texts: [astype("float64")],
    which is [float] on every cell and fails when one cell fails, then
    [astype("int64")], kept when it changes no cell.  A column without
    cells is not converted. *)
Definition try_convert_data (data : list string) : series :=
  match mapM float_of_str data with
  | Some (x :: xs) =>
      match mapM int64_of (x :: xs) with
      | Some zs => Int64 zs
      | None => Float64 (x :: xs)
      end
  | _ => Object (SStr <$> data)
  end.

(** A frame as the reader returns it: the objects of the lines, one row
    each, and the title column as the reader has typed it.  The other
    columns are read off the objects, see [literal]. *)
Record frame := {
  frame_rows : list json_record;
  title_column : series
}.

(** [pd.read_json(lines=True)] on a text. *)
Definition read_json (text : list line) : frame :=
  {| frame_rows := records text;
     title_column := try_convert_data (j_title <$> records text) |}.

(** The batches the chunked reader takes from the file, [n] lines at a
    time, until no line is left. *)
Equations? chunks (n : nat) (text : list line) : list (list line)
  by wf (length text) lt :=
  chunks 0 _ := [];
  chunks _ [] := [];
  chunks (S k) (ln :: text) :=
    take (S k) (ln :: text) :: chunks (S k) (drop (S k) (ln :: text)).
Proof. cbn. rewrite length_drop. lia. Qed.

(** The cells of an [int64] column, and the cells of a column cast to
    [float64] and to [object]. *)
Definition as_int64 (col : series) : list Z :=
  match col with
  | Int64 cells => cells
  | _ => []
  end.

Definition as_float64 (col : series) : list float_value :=
  match col with
  | Int64 cells => (λ z, Real (inject_Z z)) <$> cells
  | Float64 cells => cells
  | Object _ => []
  end.

Definition as_object (col : series) : list scalar :=
  match col with
  | Int64 cells => SInt <$> cells
  | Float64 cells => SFloat <$> cells
  | Object cells => cells
  end.

Definition is_int64 (col : series) : bool :=
  match col with Int64 _ => true | _ => false end.

Definition is_numeric (col : series) : bool :=
  match col with Object _ => false | _ => true end.

(** The columns of the frames put end to end.  Frames without rows are
    left out; the result has the common dtype of the others: [int64] when
    all are, [float64] when all are numeric, [object] otherwise, and a cell
    cast to [object] stays the number or the text it is. *)
Definition concat_series (cols : list series) : series :=
  let cols := filter (λ col, series_length col ≠ 0%nat) cols in
  if forallb is_int64 cols then Int64 (cols ≫= as_int64)
  else if forallb is_numeric cols then Float64 (cols ≫= as_float64)
  else Object (cols ≫= as_object).

(** [pd.concat(dfs, ignore_index=True)] *)
Definition pd_concat (dfs : list frame) : result frame :=
  match dfs with
  | [] => Raise (ValueError "No objects to concatenate")
  | _ => Ok {| frame_rows := dfs ≫= frame_rows;
               title_column := concat_series (title_column <$> dfs) |}
  end.

(** [pd.to_numeric(errors="coerce")] on one cell. *)
Definition to_numeric {A} (c : cell A) : option A :=
  match c with
  | Parsed a => Some a
  | Null | Garbled _ => None
  end.

(** [(publication_year // 10) * 10]; NaN stays NaN.  The floor division
    and the product are those of the integers, which is what the [int64]
    and the [float64] column compute for a [plain] year; the statements
    about the value of a decade are made for such years. *)
Definition derive_decade (year : option Z) : option Z :=
  (λ y, y `div` 10 * 10) <$> year.

(** The schema lines on a record whose title the reader has left as the
    text it is. *)
Definition normalise (r : json_record) : row :=
  let year := to_numeric (j_publication_year r) in
  {| book_id := j_id r;
     title := j_title r;
     authors := j_authors r;
     publication_year := year;
     average_rating := to_numeric (j_average_rating r);
     ratings_count := to_numeric (j_ratings_count r);
     image_url := j_image_url r;
     decade := derive_decade year |}.

(** [astype("string")]: a number is printed, a missing value is [<NA>]. *)
Definition str_scalar (v : scalar) : string :=
  match v with
  | SInt z => str_int z
  | SFloat NotANumber => "<NA>"
  | SFloat x => str_float_value x
  | SStr s => s
  end.

Definition astype_string (col : series) : list string :=
  str_scalar <$> as_object col.

(** The row of the normalised frame for an object whose title cell has
    become [t]. *)
Definition schema_row (t : string) (r : json_record) : row :=
  let year := to_numeric (j_publication_year r) in
  {| book_id := j_id r;
     title := t;
     authors := j_authors r;
     publication_year := year;
     average_rating := to_numeric (j_average_rating r);
     ratings_count := to_numeric (j_ratings_count r);
     image_url := j_image_url r;
     decade := derive_decade year |}.

(** The schema part of the loader.  A frame without rows has no columns,
    so [df["title"]] raises. *)
Definition enforce_schema (df : frame) : result (list row) :=
  match frame_rows df with
  | [] => Raise (KeyError "title")
  | _ =>
      Ok (zip_with schema_row (astype_string (title_column df)) (frame_rows df))
  end.

(** [load_jsonl_to_df(filePath, lines=True, chunkSize)], on the text of
    the file.  [if chunkSize:] is false for [None] and for [0]; a
    negative batch size is refused by the reader. *)
Definition load_jsonl_to_df (text : list line) (chunkSize : option Z)
  : result (list row) :=
  raw ← match chunkSize with
        | None | Some 0 => Ok (read_json text)
        | Some (Z.neg _) => Raise (ValueError "chunksize must be an integer >=1")
        | Some (Z.pos n) =>
            pd_concat (read_json <$> chunks (Pos.to_nat n) text)
        end;
  enforce_schema raw.

(** *** The range of the model

    The integers that an [int64] cell and a [float64] cell both hold
    exactly and that Python prints with all their digits, as an integer
    or as a float. *)
Definition plain (z : Z) : Prop := - 10 ^ 15 < z < 10 ^ 15.

Definition plain_cell (v : option Z) : Prop :=
  match v with
  | Some z => plain z
  | None => True
  end.

(** The year and the ratings count of the row are in that range. *)
Definition plain_row (r : row) : Prop :=
  plain_cell (publication_year r) ∧ plain_cell (ratings_count r).

(** No text of the record reads as a number: the reader then leaves the
    title, the identifier, the cover reference and the unreadable numeric
    cells as they are written, in whatever frame the record is read. *)
Definition literal_cell {A} (c : cell A) : bool :=
  match c with
  | Garbled text => negb (float_text text)
  | Parsed _ | Null => true
  end.

Definition literal (r : json_record) : bool :=
  negb (float_text (j_title r))
  && negb (float_text (j_image_url r))
  && match j_id r with
     | IdStr s => negb (float_text s)
     | IdInt _ => true
     end
  && literal_cell (j_publication_year r)
  && literal_cell (j_average_rating r)
  && literal_cell (j_ratings_count r).

End Frame.

Import Frame.

(** ** Steps 2 and 3: the exploded frame and the four document passes *)

Module Synth.

(** A Python float in a document's metadata. *)
Inductive pyfloat :=
| Finite (q : Q)
| NaN.

(** The [metadata] dictionary, one variant per ["type"] tag. *)
Inductive metadata :=
| Book (id : record_id) (title : string) (authors : list string)
       (year decade : option Z) (average_rating : option Q)
       (ratings_count : option Z) (image_url : string)
| AuthorAggregate (authors : string) (Count : nat)
| DecadeAggregate (decade : Z) (Count : nat)
| TopRated (title : string) (authors : list string)
           (average_rating : pyfloat) (ratings_count : Z).

Record Document := {
  page_content : string;
  meta : metadata;
  doc_id : string
}.

(** *** Column types

    A numeric column is [int64] when every cell holds an integer and
    [float64] otherwise; a row handed out by [iterrows] prints an [int64]
    cell as an integer and a [float64] cell as a float. *)

Definition present {A} (v : option A) : bool :=
  match v with Some _ => true | None => false end.

Record dtypes := {
  year_is_int : bool;
  rating_is_int : bool;
  count_is_int : bool
}.

(** The float holds an integer. *)
Definition whole (q : Q) : bool := Qnum q `mod` Z.pos (Qden q) =? 0.

Definition dtypes_of (df : list row) : dtypes :=
  {| year_is_int := forallb (λ r, present (publication_year r)) df;
     rating_is_int :=
       forallb (λ r, from_option whole false (average_rating r)) df;
     count_is_int := forallb (λ r, present (ratings_count r)) df |}.

(** [f"{row[col]}"] for a column of integers. *)
Definition show_int_cell (is_int : bool) (v : option Z) : string :=
  match v with
  | None => "nan"
  | Some z => if is_int then str_int z else str_float (inject_Z z)
  end.

(** [f"{row[col]}"] for the rating column. *)
Definition show_float_cell (is_int : bool) (v : option Q) : string :=
  match v with
  | None => "nan"
  | Some q => if is_int then str_int (Qnum q `div` Z.pos (Qden q)) else str_float q
  end.

Definition str_id (i : record_id) : string :=
  match i with
  | IdInt z => str_int z
  | IdStr s => s
  end.

(** [int(x)]: raises on NaN. *)
Definition py_int (v : option Z) : result Z :=
  match v with
  | Some z => Ok z
  | None => Raise (ValueError "cannot convert float NaN to integer")
  end.

(** [float(x)]: NaN passes through. *)
Definition py_float (v : option Q) : pyfloat :=
  match v with
  | Some q => Finite q
  | None => NaN
  end.

(** *** Sorting

    [sort_values] runs the library's default sort.  Its result is an
    ordering of the rows by the key, ascending or descending, with the
    rows whose key is NaN last; nothing more is known about rows with
    equal keys. *)

Definition in_order (ascending : bool) (x y : option Q) : Prop :=
  match y with
  | None => True
  | Some b =>
      match x with
      | None => False
      | Some a => if ascending then (a <= b)%Q else (b <= a)%Q
      end
  end.

Record Sorter := {
  sort_values : ∀ A : Type, (A → option Q) → bool → list A → list A;
  sort_values_perm : ∀ A (by_ : A → option Q) ascending l,
    sort_values A by_ ascending l ≡ₚ l;
  sort_values_sorted : ∀ A (by_ : A → option Q) ascending l,
    StronglySorted (λ a b, in_order ascending (by_ a) (by_ b))
      (sort_values A by_ ascending l)
}.
Arguments sort_values _ {A} by_ ascending l.

(** *** Grouping

    [groupby(key).size()]: rows whose key is missing are left out, the
    groups are numbered as their keys first occur and come out sorted by
    key. *)

Fixpoint tally {K} `{EqDecision K} (k : K) (groups : list (K * nat))
  : list (K * nat) :=
  match groups with
  | [] => [(k, 1%nat)]
  | (k', c) :: groups' =>
      if decide (k = k') then (k', S c) :: groups'
      else (k', c) :: tally k groups'
  end.

Definition group_sizes {K} `{EqDecision K} (keys : list K) : list (K * nat) :=
  foldl (λ groups k, tally k groups) [] keys.

Definition by_key {K} (le : relation K) : relation (K * nat) :=
  λ g1 g2, le g1.1 g2.1.

Global Instance by_key_dec {K} (le : relation K) `{RelDecision K K le} :
  RelDecision (by_key le).
Proof. intros g1 g2. unfold by_key. apply _. Defined.

Definition groupby_size {K} `{EqDecision K} (le : relation K)
    `{RelDecision K K le} (keys : list (option K)) : list (K * nat) :=
  merge_sort (by_key le) (group_sizes (omap (λ k, k) keys)).

(** *** Step 2: [df.explode("authors")], then [str.strip()]

    A row of the exploded frame is the book's row with one author in
    place of the list; a book without authors keeps one row whose author
    is missing. *)

Definition explode (r : row) : list (row * option string) :=
  match authors r with
  | [] => [(r, None)]
  | names => (λ a, (r, Some a)) <$> names
  end.

Definition df_exploded (df : list row) : list (row * option string) :=
  (λ x : row * option string, (x.1, strip <$> x.2)) <$> (df ≫= explode).

(** *** 3.1 One document per book *)

Definition doc (t : dtypes) (r : row) : Document :=
  {| page_content :=
       "Book: " +:+ title r +:+ " by " +:+ join ", " (authors r) +:+ ". " +:+
       "Published in " +:+ show_int_cell (year_is_int t) (publication_year r) +:+ ", " +:+
       "average rating " +:+ show_float_cell (rating_is_int t) (average_rating r) +:+
       " from " +:+ show_int_cell (count_is_int t) (ratings_count r) +:+ " ratings.";
     meta := Book (book_id r) (title r) (authors r) (publication_year r)
                  (decade r) (average_rating r) (ratings_count r) (image_url r);
     doc_id := str_id (book_id r) |}.

Definition book_pass (df : list row) : list Document :=
  doc (dtypes_of df) <$> df.

(** *** 3.2 One document per author *)

Definition count_key {K} (g : K * nat) : option Q := Some (inject_Z (Z.of_nat g.2)).

Definition books_by_author (s : Sorter) (df : list row) : list (string * nat) :=
  sort_values s count_key false
    (groupby_size String.le (snd <$> df_exploded df)).

Definition aggDoc (g : string * nat) : Document :=
  {| page_content :=
       "Author " +:+ g.1 +:+ " has " +:+ str_int (Z.of_nat g.2) +:+
       " books in the dataset.";
     meta := AuthorAggregate g.1 g.2;
     doc_id := "Author-" +:+ g.1 |}.

Definition author_pass (s : Sorter) (df : list row) : list Document :=
  aggDoc <$> books_by_author s df.

(** *** 3.3 One document per decade

    The frame of groups has two numeric columns, so [iterrows] hands out
    both cells of a row in one type: integers when the decade column is
    [int64], floats when it is [float64]. *)

Definition decade_key (g : Z * nat) : option Q := Some (inject_Z g.1).

Definition books_by_decade (s : Sorter) (df : list row) : list (Z * nat) :=
  sort_values s decade_key true (groupby_size Z.le (decade <$> df)).

Definition decade_doc (is_int : bool) (g : Z * nat) : Document :=
  {| page_content :=
       "In the " +:+ str_int g.1 +:+ "s, " +:+
       show_int_cell is_int (Some (Z.of_nat g.2)) +:+ " books were published.";
     meta := DecadeAggregate g.1 g.2;
     doc_id := "Decade-" +:+ show_int_cell is_int (Some g.1) |}.

Definition decade_is_int (df : list row) : bool :=
  forallb (λ r, present (decade r)) df.

Definition decade_pass (s : Sorter) (df : list row) : list Document :=
  decade_doc (decade_is_int df) <$> books_by_decade s df.

(** *** 3.4 The top-rated books *)

Definition top_books (s : Sorter) (df : list row) : list row :=
  take 50 (sort_values s average_rating false df).

Definition rating_doc (t : dtypes) (r : row) : result Document :=
  let content :=
    "Highly rated book: " +:+ title r +:+ " by " +:+ join ", " (authors r) +:+ ", " +:+
    "average rating " +:+ show_float_cell (rating_is_int t) (average_rating r) +:+
    " from " +:+ show_int_cell (count_is_int t) (ratings_count r) +:+ " ratings." in
  count ← py_int (ratings_count r);
  mret {| page_content := content;
          meta := TopRated (title r) (authors r)
                           (py_float (average_rating r)) count;
          doc_id := "TopRated-" +:+ str_id (book_id r) |}.

Definition top_rated_pass (s : Sorter) (df : list row) : result (list Document) :=
  for_each (rating_doc (dtypes_of df)) (top_books s df).

(** *** The list [documents] once the four loops have run *)

Definition documents (s : Sorter) (df : list row) : result (list Document) :=
  let books := book_pass df in
  let by_author := author_pass s df in
  let by_decade := decade_pass s df in
  top ← top_rated_pass s df;
  mret (books ++ by_author ++ by_decade ++ top).

(** *** Reading a document *)

(** The ["Count"] entry of an aggregate's metadata. *)
Definition count_of (d : Document) : nat :=
  match meta d with
  | AuthorAggregate _ c | DecadeAggregate _ c => c
  | _ => 0%nat
  end.

End Synth.

Import Synth.

(** ** A sorter: merge sort on the key order *)

Module MergeSorter.

Definition row_order {A} (by_ : A → option Q) (ascending : bool) : relation A :=
  λ a b, in_order ascending (by_ a) (by_ b).

Global Instance in_order_dec ascending x y : Decision (in_order ascending x y).
Proof.
  destruct y as [b|], x as [a|]; simpl; try apply _.
  destruct ascending; unfold Qle; apply _.
Defined.

Global Instance row_order_dec {A} (by_ : A → option Q) ascending :
  RelDecision (row_order by_ ascending).
Proof. intros a b. unfold row_order. apply _. Defined.

Lemma in_order_total ascending x y :
  in_order ascending x y ∨ in_order ascending y x.
Proof.
  destruct x as [a|], y as [b|]; simpl; auto.
  destruct ascending; destruct (Qlt_le_dec a b) as [Hlt|Hle]; auto using Qlt_le_weak.
Qed.

Lemma in_order_trans ascending x y z :
  in_order ascending x y → in_order ascending y z → in_order ascending x z.
Proof.
  destruct x as [a|], y as [b|], z as [c|]; simpl; try tauto.
  destruct ascending; intros; eapply Qle_trans; eauto.
Qed.

Global Instance row_order_total {A} (by_ : A → option Q) ascending :
  Total (row_order by_ ascending).
Proof. intros a b. apply in_order_total. Qed.

Global Instance row_order_transitive {A} (by_ : A → option Q) ascending :
  Transitive (row_order by_ ascending).
Proof. intros a b c. apply in_order_trans. Qed.

Definition sorter : Sorter :=
  {| sort_values := λ A by_ ascending l, merge_sort (row_order by_ ascending) l;
     sort_values_perm := λ A by_ ascending l,
       merge_sort_Permutation (row_order by_ ascending) l;
     sort_values_sorted := λ A by_ ascending l,
       StronglySorted_merge_sort (row_order by_ ascending) l |}.

End MergeSorter.

(** ** Step 4: build or load the vector store *)

Module Store.

(** The lists of documents that the build of the index takes: the library
    has no index of an empty list, and it refuses a list in which an
    identifier comes twice. *)
Definition accepted (documents : list Document) : Prop :=
  documents ≠ [] ∧ NoDup (doc_id <$> documents).

Section Adapter.

(** The embedding model and the index are the libraries': an embedding
    is a [Vector], [embed_documents] is the model on a batch of texts
    and [index_of] is the index FAISS builds from the embedded
    documents. *)
Context {Vector Index : Type}.
Variable embed_documents : list string → list Vector.
Variable index_of : list (Vector * Document) → Index.

(** What lies at a path: a saved index or something else. *)
Inductive entry :=
| Bundle (ix : Index)
| Other.

(** Calls that leave the script. *)
Inductive call :=
| Embed (texts : list string)
| Load (path : string)
| Save (path : string).

Record world := {
  files : gmap string entry;
  calls : list call
}.

Definition log (c : call) (w : world) : world :=
  {| files := files w; calls := calls w ++ [c] |}.

(** A statement of the script: it runs in a world, returns or raises,
    and leaves a world. *)
Definition prog (A : Type) : Type := world → result A * world.

Definition prog_ret {A} (a : A) : prog A := λ w, (Ok a, w).

Definition prog_bind {A B} (m : prog A) (k : A → prog B) : prog B :=
  λ w, match m w with
       | (Ok a, w') => k a w'
       | (Raise e, w') => (Raise e, w')
       end.

(** [os.path.exists(path)] *)
Definition path_exists (path : string) : prog bool :=
  λ w, (Ok (bool_decide (is_Some (files w !! path))), w).

(** [LangFAISS.load_local(folder_path, embeddings, ...)] *)
Definition load_local (folder_path : string) : prog Index :=
  λ w, (match files w !! folder_path with
        | Some (Bundle ix) => Ok ix
        | _ => Raise (RuntimeError "could not read the index")
        end, log (Load folder_path) w).

(** [LangFAISS.from_documents(documents, embedding)] when the library
    returns, as it does on an [accepted] list: one call of the model on
    all the contents, then the index of the pairs.  The statements about
    the build branch are made for a call that returns; the one about a
    whole first run shows that its list is [accepted]. *)
Definition from_documents (documents : list Document) : prog Index :=
  λ w, let texts := page_content <$> documents in
       (Ok (index_of (zip (embed_documents texts) documents)),
        log (Embed texts) w).

(** [vector_store.save_local(folder_path)] *)
Definition save_local (ix : Index) (folder_path : string) : prog unit :=
  λ w, (Ok (), log (Save folder_path)
                 {| files := <[folder_path := Bundle ix]> (files w);
                    calls := calls w |}).

Definition vector_store (db_location : string) (documents : list Document)
  : prog Index :=
  prog_bind (path_exists db_location) (λ found,
    if found then load_local db_location
    else
      prog_bind (from_documents documents) (λ ix,
      prog_bind (save_local ix db_location) (λ _,
      prog_ret ix))).

End Adapter.
End Store.

(** ** The script [vector.py] as a whole *)

Module Script.
Section Run.

Context {Vector Index : Type}.
Variable sorter : Sorter.
Variable embed_documents : list string → list Vector.
Variable index_of : list (Vector * Document) → Index.

(** A step of the script that cannot touch the store. *)
Definition pure {A} (m : result A) : Store.prog (Index:=Index) A := λ w, (m, w).

Definition db_location : string := "BooksDB".

(** The statements of the module in their order: load [books.jsonl] with
    [chunkSize=10000], build the four kinds of documents, then build or
    load the store at [db_location].  [text] is the content of the file. *)
Definition vector_py (text : list line) : Store.prog (Index:=Index) Index :=
  Store.prog_bind (pure (load_jsonl_to_df text (Some 10000))) (λ df,
  Store.prog_bind (pure (documents sorter df)) (λ docs,
  Store.vector_store embed_documents index_of db_location docs)).

End Run.
End Script.

(** ** The chat loop of [main.py] *)

Module Chat.

(** [c.lower()] for a code point below 256: the ASCII capitals and the
    Latin-1 capitals (all of 192..222 but the multiplication sign). *)
Definition lower_char (c : Ascii.ascii) : Ascii.ascii :=
  let n := Ascii.N_of_ascii c in
  if ((65 <=? n) && (n <=? 90)
      || (192 <=? n) && (n <=? 222) && negb (n =? 215))%N
  then Ascii.ascii_of_N (n + 32)
  else c.

Fixpoint lower (s : string) : string :=
  match s with
  | EmptyString => EmptyString
  | String c s' => String (lower_char c) (lower s')
  end.

(** [question.lower().strip() == "q"] *)
Definition is_quit (question : string) : bool :=
  String.eqb (strip (lower question)) "q".

(** What the program writes: the fixed lines, the prompt of [input], and
    the answer of the chain. *)
Inductive console :=
| Banner
| BannerRule
| Prompt
| Goodbye
| AnswerHeading
| Answer (result : string)
| AnswerRule.

(** How the run ends: by the [break], or by the [EOFError] that [input]
    raises when the input has no line left. *)
Inductive ending :=
| Quit
| EOFError.

Section Loop.

(** [retriever.invoke] and [chain.invoke] are the libraries'. *)
Variable retriever : string → list Document.
Variable chain : list Document → string → string.

(** The [while True] loop on the lines that the input still holds. *)
Fixpoint chat_loop (inputs : list string) : list console * ending :=
  match inputs with
  | [] => ([Prompt], EOFError)
  | question :: inputs' =>
      if is_quit question then ([Prompt; Goodbye], Quit)
      else
        let reviews := retriever question in
        let result := chain reviews question in
        let '(out, e) := chat_loop inputs' in
        (Prompt :: AnswerHeading :: Answer result :: AnswerRule :: out, e)
  end.

Definition main (inputs : list string) : list console * ending :=
  let '(out, e) := chat_loop inputs in
  (Banner :: BannerRule :: out, e).

(** The lines of the input that the run has read. *)
Fixpoint consumed (inputs : list string) : nat :=
  match inputs with
  | [] => 0%nat
  | question :: inputs' =>
      if is_quit question then 1%nat else S (consumed inputs')
  end.

End Loop.
End Chat.

(** ** Reading documents and groups *)

(** The ["type"] entry of the metadata. *)
Definition doc_type (d : Document) : string :=
  match meta d with
  | Book _ _ _ _ _ _ _ _ => "Book"
  | AuthorAggregate _ _ => "AuthorAggregate"
  | DecadeAggregate _ _ => "DecadeAggregate"
  | TopRated _ _ _ _ => "TopRated"
  end.

(** The size recorded for a key in a frame of groups. *)
Definition size_of {K} `{EqDecision K} (k : K) (groups : list (K * nat)) : nat :=
  sum_list_with (λ g, if decide (g.1 = k) then g.2 else 0%nat) groups.

(** The number of cells of a column that hold [k]. *)
Definition occurrences {K} `{EqDecision K} (k : K) (col : list K) : nat :=
  length (filter (λ x, x = k) col).

(** A string of white space only. *)
Fixpoint blank (s : string) : bool :=
  match s with
  | EmptyString => true
  | String c s' => is_space c && blank s'
  end.

(** ** Reading identifiers, and sample catalogues *)

(** [s.startswith(prefix)] *)
Fixpoint starts_with (prefix s : string) : bool :=
  match prefix, s with
  | EmptyString, _ => true
  | String a prefix', String b s' =>
      if Ascii.eqb a b then starts_with prefix' s' else false
  | String _ _, EmptyString => false
  end.

(** Identifiers that start like those the aggregate passes make: a record
    whose own identifier does can collide with a document of another pass. *)
Definition reserved (ident : string) : bool :=
  starts_with "Author-" ident || starts_with "Decade-" ident
  || starts_with "TopRated-" ident.

(** The two records of the scenario; the cover references are free. *)
Definition book_A (image : string) : json_record :=
  {| j_id := IdInt 1; j_title := "A"; j_authors := ["X"];
     j_publication_year := Parsed 1990; j_average_rating := Parsed (9 # 2);
     j_ratings_count := Parsed 10; j_image_url := image |}.

Definition book_B (image : string) : json_record :=
  {| j_id := IdInt 2; j_title := "B"; j_authors := ["X"; "Y"];
     j_publication_year := Parsed 1990; j_average_rating := Parsed (3 # 1);
     j_ratings_count := Parsed 5; j_image_url := image |}.

(** A record whose ratings count is [null]. *)
Definition book_uncounted : json_record :=
  {| j_id := IdInt 3; j_title := "C"; j_authors := ["Z"];
     j_publication_year := Parsed 2001; j_average_rating := Parsed (4 # 1);
     j_ratings_count := Null; j_image_url := "" |}.

(** A record whose rating is [null] and whose year cannot be read. *)
Definition book_unrated : json_record :=
  {| j_id := IdInt 4; j_title := "D"; j_authors := [];
     j_publication_year := Garbled "n.d."; j_average_rating := Null;
     j_ratings_count := Parsed 7; j_image_url := "" |}.

(** A second record that carries the identifier 1. *)
Definition book_A_again : json_record :=
  {| j_id := IdInt 1; j_title := "A, second printing"; j_authors := ["X"];
     j_publication_year := Parsed 1994; j_average_rating := Parsed (4 # 1);
     j_ratings_count := Parsed 3; j_image_url := "" |}.




(** A file of four lines, one of them blank. *)
Definition sample_text : list line :=
  [Some (book_A ""); None; Some (book_B ""); Some book_unrated].

(** A stand-in for the embedding model (the length of the text) and for
    the index (the embedded documents as they are), and two worlds: one
    with no file, one with an index saved at [BooksDB]. *)
Definition toy_embed (texts : list string) : list nat :=
  String.length <$> texts.

Definition toy_index (pairs : list (nat * Document)) : list (nat * Document) :=
  pairs.

Definition fresh_world : Store.world (Index:=list (nat * Document)) :=
  {| Store.files := ∅; Store.calls := [] |}.

Definition stocked_world : Store.world (Index:=list (nat * Document)) :=
  {| Store.files := {[ Script.db_location := Store.Bundle [] ]};
     Store.calls := [] |}.

(** A stand-in for the retriever (nothing found) and for the chain (the
    question sent back). *)
Definition toy_retriever (question : string) : list Document := [].

Definition toy_chain (reviews : list Document) (question : string) : string :=
  "re: " +:+ question.

(** * Properties *)

(** ** The loader *)

Section Loader.

Lemma chunks_concat (n : nat) (text : list line) :
  (0 < n)%nat → concat (chunks n text) = text.
Proof.
  funelim (chunks n text); simp chunks; intros Hn.
  - lia.
  - reflexivity.
  - match goal with IH : _ → concat (chunks _ _) = _ |- _ => cbn [concat]; rewrite IH by lia end.
    apply take_drop.
Qed.

Lemma chunks_nil_inv (n : nat) (text : list line) :
  (0 < n)%nat → chunks n text = [] → text = [].
Proof.
  destruct n as [|k]; [lia|]. destruct text as [|ln text]; [done|].
  simp chunks. discriminate.
Qed.

Lemma records_concat (batches : list (list line)) :
  batches ≫= records = records (concat batches).
Proof.
  induction batches as [|b batches IH]; [done|].
  cbn. rewrite IH. unfold records. by rewrite omap_app.
Qed.

Lemma frame_rows_chunked (n : nat) (text : list line) :
  (0 < n)%nat → (read_json <$> chunks n text) ≫= frame_rows = records text.
Proof.
  intros Hn. rewrite <- (chunks_concat n text) at 2 by done.
  rewrite <- records_concat.
  induction (chunks n text) as [|b batches IH]; [done|]. cbn. by rewrite IH.
Qed.







(** A title that does not read as a number is left as it is. *)
Lemma literal_title (j : json_record) :
  literal j = true → float_of_str (j_title j) = None.
Proof.
  unfold literal, float_text. destruct (float_of_str (j_title j)); [|done].
  cbn. discriminate.
Qed.

Lemma try_convert_data_literal (raw : list json_record) :
  Forall (λ j, literal j = true) raw →
  try_convert_data (j_title <$> raw) = Object (SStr <$> (j_title <$> raw)).
Proof.
  intros Hraw. unfold try_convert_data.
  destruct Hraw as [|j raw Hj _]; [done|].
  cbn. by rewrite (literal_title j Hj).
Qed.

Lemma str_scalar_texts (titles : list string) :
  str_scalar <$> (SStr <$> titles) = titles.
Proof. rewrite <- list_fmap_compose. apply list_fmap_id. Qed.

Lemma kept_texts (batches : list (list string)) :
  filter (λ col, series_length col ≠ 0%nat) ((λ ts, Object (SStr <$> ts)) <$> batches)
    ≫= as_object
  = SStr <$> concat batches.
Proof.
  induction batches as [|ts batches IH]; [done|].
  cbn [fmap list_fmap concat]. rewrite filter_cons, fmap_app.
  case_decide as Hts; cbn [mbind list_bind as_object].
  - by rewrite <- IH.
  - cbn in Hts. rewrite length_fmap in Hts.
    destruct ts; [|cbn in Hts; lia]. by rewrite <- IH.
Qed.

Lemma concat_series_texts (batches : list (list string)) :
  astype_string (concat_series ((λ ts, Object (SStr <$> ts)) <$> batches))
  = concat batches.
Proof.
  unfold concat_series, astype_string.
  pose proof (kept_texts batches) as Hkept.
  destruct (filter _ _) as [|col kept] eqn:Hfilter.
  - cbn in *. symmetry in Hkept. apply fmap_nil_inv in Hkept. by rewrite Hkept.
  - assert (col ∈ filter (λ col, series_length col ≠ 0%nat)
                     ((λ ts, Object (SStr <$> ts)) <$> batches)) as Hcol
      by (rewrite Hfilter; left).
    apply list_elem_of_filter in Hcol as [_ (ts & -> & _)%list_elem_of_fmap].
    cbn [forallb is_int64 is_numeric andb as_object].
    rewrite Hkept. apply str_scalar_texts.
Qed.

Lemma schema_rows_titles (raw : list json_record) :
  zip_with schema_row (j_title <$> raw) raw = normalise <$> raw.
Proof. induction raw as [|j raw IH]; [done|]. cbn. by rewrite IH. Qed.


Lemma literal_batches (n : nat) (text : list line) :
  (0 < n)%nat →
  Forall (λ j, literal j = true) (records text) →
  Forall (λ batch, Forall (λ j, literal j = true) (records batch)) (chunks n text).
Proof.
  intros Hn. rewrite <- (chunks_concat n text) at 1 by done.
  rewrite <- records_concat.
  induction (chunks n text) as [|b batches IH]; [constructor|].
  cbn. rewrite Forall_app. intros [Hb Hrest]. constructor; [done|]. by apply IH.
Qed.

Lemma titles_chunked (batches : list (list line)) :
  Forall (λ batch, Forall (λ j, literal j = true) (records batch)) batches →
  astype_string (concat_series (title_column <$> (read_json <$> batches)))
  = j_title <$> (batches ≫= records).
Proof.
  intros Hbatches.
  assert (title_column <$> (read_json <$> batches)
          = (λ ts, Object (SStr <$> ts)) <$> ((λ b, j_title <$> records b) <$> batches))
    as ->.
  { rewrite <- !list_fmap_compose. apply Forall_fmap_ext_1.
    eapply Forall_impl; [exact Hbatches|]. intros b Hb. cbn.
    by apply try_convert_data_literal. }
  rewrite concat_series_texts.
  clear Hbatches. induction batches as [|b batches IH]; [done|].
  cbn. by rewrite fmap_app, IH.
Qed.

End Loader.

Lemma load_unchunked (text : list line) :
  load_jsonl_to_df text None = enforce_schema (read_json text).
Proof. reflexivity. Qed.

Lemma load_chunked_empty (n : positive) :
  load_jsonl_to_df [] (Some (Z.pos n))
  = Raise (ValueError "No objects to concatenate").
Proof.
  unfold load_jsonl_to_df.
  assert (chunks (Pos.to_nat n) [] = []) as ->; [|done].
  destruct (Pos.to_nat n); by simp chunks.
Qed.

(** What the loader returns on a text with a line, read in batches: the
    schema rows of the concatenated frame. *)
Lemma load_chunked (text : list line) (n : positive) :
  text ≠ [] →
  load_jsonl_to_df text (Some (Z.pos n))
  = enforce_schema
      {| frame_rows := records text;
         title_column :=
           concat_series (title_column <$> (read_json <$> chunks (Pos.to_nat n) text)) |}.
Proof.
  intros Htext. unfold load_jsonl_to_df.
  destruct (chunks (Pos.to_nat n) text) as [|b batches] eqn:Hch.
  { apply chunks_nil_inv in Hch; [done | lia]. }
  rewrite <- Hch. unfold pd_concat.
  rewrite frame_rows_chunked by lia. by rewrite Hch.
Qed.


Lemma load_chunked_rows (text : list line) (n : positive) :
  records text ≠ [] →
  Forall (λ j, literal j = true) (records text) →
  load_jsonl_to_df text (Some (Z.pos n)) = Ok (normalise <$> records text).
Proof.
  intros Hraw Hlit.
  assert (text ≠ []) as Htext by (by intros ->).
  rewrite load_chunked by done. unfold enforce_schema. cbn [frame_rows title_column].
  rewrite titles_chunked by (apply literal_batches; [lia|done]).
  rewrite records_concat, chunks_concat by lia.
  destruct (records text) as [|j raw] eqn:Hrec; [done|].
  by rewrite schema_rows_titles.
Qed.

(** Without rows the frame has no title column, however the text is
    read. *)
Lemma load_no_record (text : list line) (chunkSize : option Z) :
  records text = [] →
  chunkSize = None ∨ chunkSize = Some 0
  ∨ (∃ n, chunkSize = Some n ∧ 0 < n ∧ text ≠ []) →
  load_jsonl_to_df text chunkSize = Raise (KeyError "title").
Proof.
  intros Hraw [->|[->|(n & -> & Hn & Htext)]].
  - rewrite load_unchunked. unfold enforce_schema. cbn [frame_rows read_json].
    by rewrite Hraw.
  - unfold load_jsonl_to_df. cbn. unfold enforce_schema. cbn [frame_rows read_json].
    by rewrite Hraw.
  - destruct n; try lia. rewrite load_chunked by done.
    unfold enforce_schema. cbn [frame_rows]. by rewrite Hraw.
Qed.




(** ** Grouping *)

Section Grouping.
Context {K : Type} `{EqDecision K}.
Implicit Types (k : K) (groups : list (K * nat)) (keys : list K).

Lemma tally_sum k groups :
  sum_list_with snd (tally k groups) = S (sum_list_with snd groups).
Proof.
  induction groups as [|[k' c] groups IH]; [done|].
  cbn. case_decide; cbn; [done|]. rewrite IH. lia.
Qed.

Lemma tally_keys_old k groups :
  k ∈ groups.*1 → (tally k groups).*1 = groups.*1.
Proof.
  induction groups as [|[k' c] groups IH]; cbn.
  - by intros ?%elem_of_nil.
  - intros Hin. case_decide as Hk; cbn; [done|].
    f_equal. apply IH. apply elem_of_cons in Hin as [?|?]; [done..].
Qed.

Lemma tally_keys_new k groups :
  k ∉ groups.*1 → (tally k groups).*1 = groups.*1 ++ [k].
Proof.
  induction groups as [|[k' c] groups IH]; cbn; [done|].
  intros Hin. apply not_elem_of_cons in Hin as [Hne Hin].
  case_decide; [done|]. cbn. f_equal. by apply IH.
Qed.

Lemma tally_NoDup k groups :
  NoDup groups.*1 → NoDup (tally k groups).*1.
Proof.
  intros Hnd. destruct (decide (k ∈ groups.*1)) as [Hin|Hin].
  - by rewrite tally_keys_old.
  - rewrite tally_keys_new by done.
    apply NoDup_app. split_and!; [done| |apply NoDup_singleton].
    intros x Hx ->%list_elem_of_singleton. done.
Qed.

Lemma foldl_tally_sum keys groups :
  sum_list_with snd (foldl (λ g k, tally k g) groups keys)
  = (sum_list_with snd groups + length keys)%nat.
Proof.
  revert groups. induction keys as [|k keys IH]; intros groups; cbn; [lia|].
  rewrite IH, tally_sum. lia.
Qed.

Lemma foldl_tally_NoDup keys groups :
  NoDup groups.*1 → NoDup (foldl (λ g k, tally k g) groups keys).*1.
Proof.
  revert groups. induction keys as [|k keys IH]; intros groups Hnd; cbn; [done|].
  by apply IH, tally_NoDup.
Qed.

Lemma group_sizes_sum keys :
  sum_list_with snd (group_sizes keys) = length keys.
Proof. unfold group_sizes. by rewrite foldl_tally_sum. Qed.

Lemma group_sizes_NoDup keys : NoDup (group_sizes keys).*1.
Proof. apply foldl_tally_NoDup. constructor. Qed.

Context (le : relation K) `{RelDecision K K le}.

Lemma groupby_size_sum (col : list (option K)) :
  sum_list_with snd (groupby_size le col) = length (omap (λ o : option K, o) col).
Proof.
  unfold groupby_size. rewrite merge_sort_Permutation. apply group_sizes_sum.
Qed.

Lemma groupby_size_NoDup (col : list (option K)) :
  NoDup (groupby_size le col).*1.
Proof.
  unfold groupby_size. rewrite merge_sort_Permutation. apply group_sizes_NoDup.
Qed.

End Grouping.

(** ** The aggregate passes *)

Lemma omap_column {A B} (f : A → option B) (l : list A) :
  omap (λ o : option B, o) (f <$> l) = omap f l.
Proof. induction l as [|x l IH]; cbn; [done|]. rewrite IH. by destruct (f x). Qed.

Lemma explode_keys (r : row) :
  omap snd ((λ x : row * option string, (x.1, strip <$> x.2)) <$> explode r)
  = strip <$> authors r.
Proof.
  unfold explode. destruct (authors r) as [|a names]; [done|].
  generalize (a :: names). intros l. induction l as [|b l IH]; cbn; [done|].
  by rewrite IH.
Qed.

Lemma df_exploded_keys (df : list row) :
  omap snd (df_exploded df) = df ≫= (λ r, strip <$> authors r).
Proof.
  unfold df_exploded. induction df as [|r df IH]; [done|].
  cbn. rewrite fmap_app, omap_app, IH. f_equal. apply explode_keys.
Qed.

Lemma length_bind_authors (df : list row) :
  length (df ≫= (λ r, strip <$> authors r))
  = sum_list_with (λ r, length (authors r)) df.
Proof.
  induction df as [|r df IH]; cbn; [done|].
  by rewrite length_app, length_fmap, IH.
Qed.

Lemma count_of_aggDoc (groups : list (string * nat)) :
  sum_list_with count_of (aggDoc <$> groups) = sum_list_with snd groups.
Proof. induction groups as [|g groups IH]; cbn; [done|]. by rewrite IH. Qed.

Lemma count_of_decade_doc (is_int : bool) (groups : list (Z * nat)) :
  sum_list_with count_of (decade_doc is_int <$> groups) = sum_list_with snd groups.
Proof. induction groups as [|g groups IH]; cbn; [done|]. by rewrite IH. Qed.

Lemma normalised_decade (raw : list json_record) (r : row) :
  r ∈ normalise <$> raw → decade r = derive_decade (publication_year r).
Proof. intros (j & -> & _)%list_elem_of_fmap. reflexivity. Qed.

Lemma dated_rows (raw : list json_record) :
  length (omap decade (normalise <$> raw))
  = length (filter (λ r, is_Some (publication_year r)) (normalise <$> raw)).
Proof.
  induction raw as [|j raw IH]; [done|].
  rewrite fmap_cons, filter_cons. cbn.
  destruct (to_numeric (j_publication_year j)) as [y|] eqn:Hy; cbn.
  - rewrite decide_True by eauto. cbn. by rewrite IH.
  - rewrite decide_False by (by intros [? ?]). done.
Qed.

(** C6: a record with N authors puts N rows (its trimmed author names) into
    the author grouping and gives one Book document, and the Count values of
    the AuthorAggregate documents add up to the number of author entries of
    the corpus. *)
Theorem author_counts (s : Sorter) (df : list row) :
  (∀ r, omap snd (df_exploded [r]) = strip <$> authors r)
  ∧ omap snd (df_exploded df) = df ≫= (λ r, strip <$> authors r)
  ∧ (∀ i, book_pass df !! i = doc (dtypes_of df) <$> df !! i)
  ∧ sum_list_with count_of (author_pass s df)
    = sum_list_with (λ r, length (authors r)) df.
Proof.
  split_and!.
  - intros r. rewrite df_exploded_keys. cbn. by rewrite app_nil_r.
  - apply df_exploded_keys.
  - intros i. unfold book_pass. apply list_lookup_fmap.
  - unfold author_pass, books_by_author.
    rewrite count_of_aggDoc, sort_values_perm, groupby_size_sum.
    by rewrite omap_column, df_exploded_keys, length_bind_authors.
Qed.

(** C5: a record without a publication year has no decade and is in no
    decade group (the groups are those of the corpus without it), and the
    Count values of the DecadeAggregate documents add up to the number of
    records that have a publication year. *)
Theorem decade_counts (s : Sorter) (raw : list json_record) :
  (∀ r, r ∈ normalise <$> raw → publication_year r = None → decade r = None)
  ∧ (∀ before r after,
       normalise <$> raw = before ++ r :: after → publication_year r = None →
       books_by_decade s (before ++ r :: after) = books_by_decade s (before ++ after))
  ∧ sum_list_with count_of (decade_pass s (normalise <$> raw))
    = length (filter (λ r, is_Some (publication_year r)) (normalise <$> raw)).
Proof.
  assert (∀ r, r ∈ normalise <$> raw → publication_year r = None → decade r = None)
    as Hmissing.
  { intros r Hr Hy. by rewrite (normalised_decade raw r Hr), Hy. }
  split_and!; [done| |].
  - intros before r after Hdf Hy.
    assert (decade r = None) as Hd.
    { apply Hmissing; [|done]. rewrite Hdf. set_solver. }
    unfold books_by_decade, groupby_size.
    by rewrite !fmap_app, fmap_cons, !omap_app, Hd.
  - unfold decade_pass, books_by_decade.
    rewrite count_of_decade_doc, sort_values_perm, groupby_size_sum.
    rewrite omap_column. apply dated_rows.
Qed.

(** ** Rendering of cells *)

Lemma str_float_integral (z : Z) : str_float (inject_Z z) = str_int z +:+ ".0".
Proof.
  unfold str_float, str_int, inject_Z. cbn [Qnum Qden].
  rewrite Z.div_1_r, Z.mod_1_r. destruct z as [|p|p]; reflexivity.
Qed.

Lemma normalised_decade_present (raw : list json_record) :
  decade_is_int (normalise <$> raw)
  = forallb (λ r, present (publication_year r)) (normalise <$> raw).
Proof.
  unfold decade_is_int. induction raw as [|j raw IH]; [done|].
  cbn. rewrite <- IH. by destruct (to_numeric (j_publication_year j)).
Qed.

Lemma forallb_present_true {A} (f : row → option A) (df : list row) :
  Forall (λ r, is_Some (f r)) df → forallb (λ r, present (f r)) df = true.
Proof.
  induction 1 as [|r df [v Hv] _ IH]; [done|]. cbn. by rewrite Hv, IH.
Qed.

Lemma forallb_present_false {A} (f : row → option A) (df : list row) :
  Exists (λ r, f r = None) df → forallb (λ r, present (f r)) df = false.
Proof.
  induction 1 as [r df Hr|r df _ IH]; cbn.
  - by rewrite Hr.
  - rewrite IH. apply andb_false_r.
Qed.

(** C10: in the Book document of every record all clauses of the sentence
    are there, and a missing publication year, average rating or ratings
    count is printed as [nan]. *)
Theorem book_content_nan (df : list row) (i : nat) (r : row) :
  df !! i = Some r →
  ∃ d year rating count,
    book_pass df !! i = Some d
    ∧ page_content d =
        "Book: " +:+ title r +:+ " by " +:+ join ", " (authors r) +:+
        ". Published in " +:+ year +:+ ", average rating " +:+ rating +:+
        " from " +:+ count +:+ " ratings."
    ∧ (publication_year r = None → year = "nan")
    ∧ (average_rating r = None → rating = "nan")
    ∧ (ratings_count r = None → count = "nan").
Proof.
  intros Hr. exists (doc (dtypes_of df) r).
  exists (show_int_cell (year_is_int (dtypes_of df)) (publication_year r)).
  exists (show_float_cell (rating_is_int (dtypes_of df)) (average_rating r)).
  exists (show_int_cell (count_is_int (dtypes_of df)) (ratings_count r)).
  split_and!.
  - unfold book_pass. by rewrite list_lookup_fmap, Hr.
  - reflexivity.
  - by intros ->.
  - by intros ->.
  - by intros ->.
Qed.

(** ** What every sorter does *)

Section Sorting.
Context (s : Sorter) {A : Type} (by_ : A → option Q).

Lemma sort_values_single (ascending : bool) (a : A) :
  sort_values s by_ ascending [a] = [a].
Proof. apply Permutation_singleton_r, sort_values_perm. Qed.

Lemma sort_values_pair_desc (a b : A) (qa qb : Q) :
  by_ a = Some qa → by_ b = Some qb → (qb < qa)%Q →
  sort_values s by_ false [a; b] = [a; b].
Proof.
  intros Ha Hb Hlt.
  pose proof (sort_values_perm s A by_ false [a; b]) as Hperm.
  pose proof (sort_values_sorted s A by_ false [a; b]) as Hsorted.
  symmetry in Hperm. apply Permutation_length_2_inv in Hperm as [->| Hswap]; [done|].
  rewrite Hswap in Hsorted. apply StronglySorted_inv in Hsorted as [_ Hab].
  apply Forall_cons in Hab as [Hab _]. rewrite Ha, Hb in Hab. cbn in Hab.
  exfalso. by apply (Qlt_not_le qb qa).
Qed.

Lemma sort_values_length (ascending : bool) (l : list A) :
  length (sort_values s by_ ascending l) = length l.
Proof. by rewrite sort_values_perm. Qed.

End Sorting.

(** ** The scenario *)

(** C4: on the two records of the scenario every run of the script builds
    two Book documents, the AuthorAggregate documents [Author-X] with Count
    2 and [Author-Y] with Count 1, the DecadeAggregate document
    [Decade-1990] with Count 2, and the TopRated documents of record 1 and
    then of record 2. *)
Theorem scenario_documents (s : Sorter) (u1 u2 : string) :
  (df ← load_jsonl_to_df [Some (book_A u1); Some (book_B u2)] (Some 10000);
   documents s df)
  = Ok [ {| page_content :=
              "Book: A by X. Published in 1990, average rating 4.5 from 10 ratings.";
            meta := Book (IdInt 1) "A" ["X"] (Some 1990) (Some 1990)
                         (Some (9 # 2)) (Some 10) u1;
            doc_id := "1" |};
         {| page_content :=
              "Book: B by X, Y. Published in 1990, average rating 3.0 from 5 ratings.";
            meta := Book (IdInt 2) "B" ["X"; "Y"] (Some 1990) (Some 1990)
                         (Some (3 # 1)) (Some 5) u2;
            doc_id := "2" |};
         {| page_content := "Author X has 2 books in the dataset.";
            meta := AuthorAggregate "X" 2;
            doc_id := "Author-X" |};
         {| page_content := "Author Y has 1 books in the dataset.";
            meta := AuthorAggregate "Y" 1;
            doc_id := "Author-Y" |};
         {| page_content := "In the 1990s, 2 books were published.";
            meta := DecadeAggregate 1990 2;
            doc_id := "Decade-1990" |};
         {| page_content :=
              "Highly rated book: A by X, average rating 4.5 from 10 ratings.";
            meta := TopRated "A" ["X"] (Finite (9 # 2)) 10;
            doc_id := "TopRated-1" |};
         {| page_content :=
              "Highly rated book: B by X, Y, average rating 3.0 from 5 ratings.";
            meta := TopRated "B" ["X"; "Y"] (Finite (3 # 1)) 5;
            doc_id := "TopRated-2" |} ].
Proof.
  set (df := normalise <$> [book_A u1; book_B u2]).
  assert (load_jsonl_to_df [Some (book_A u1); Some (book_B u2)] (Some 10000) = Ok df)
    as -> by (by vm_compute).
  unfold mbind at 1, result_bind at 1, bind at 1.
  assert (books_by_author s df = [("X", 2%nat); ("Y", 1%nat)]) as Hauthors.
  { unfold books_by_author.
    assert (groupby_size String.le (snd <$> df_exploded df)
            = [("X", 2%nat); ("Y", 1%nat)]) as -> by (by vm_compute).
    by apply (sort_values_pair_desc s count_key _ _ 2 1). }
  assert (books_by_decade s df = [(1990, 2%nat)]) as Hdecades.
  { unfold books_by_decade.
    assert (groupby_size Z.le (decade <$> df) = [(1990, 2%nat)]) as ->
      by (by vm_compute).
    apply sort_values_single. }
  assert (top_books s df = df) as Htop.
  { unfold top_books, df. cbn [fmap list_fmap].
    by rewrite (sort_values_pair_desc s average_rating _ _ (9 # 2) (3 # 1)). }
  unfold documents, top_rated_pass, author_pass, decade_pass.
  rewrite Hauthors, Hdecades, Htop. reflexivity.
Qed.

(** ** Loops that may raise *)

Section ForEach.
Context {A B : Type} (body : A → result B).

Lemma for_each_ok (l : list A) :
  Forall (λ x, ∃ y, body x = Ok y) l →
  ∃ ys, for_each body l = Ok ys ∧ Forall2 (λ x y, body x = Ok y) l ys.
Proof.
  induction 1 as [|x l [y Hy] _ (ys & Hys & Hall)].
  - exists []. by split.
  - exists (y :: ys). cbn. rewrite Hy, Hys. split; [done|]. by constructor.
Qed.

Lemma for_each_inv (l : list A) (ys : list B) :
  for_each body l = Ok ys → Forall2 (λ x y, body x = Ok y) l ys.
Proof.
  revert ys. induction l as [|x l IH]; intros ys; cbn.
  - intros [= <-]. constructor.
  - destruct (body x) as [y|e] eqn:Hy; [|done]. cbn.
    destruct (for_each body l) as [ys'|e]; [|done]. cbn.
    intros [= <-]. constructor; [done|]. by apply IH.
Qed.

Lemma for_each_raise (l : list A) :
  Exists (λ x, ∃ e, body x = Raise e) l → ∃ e, for_each body l = Raise e.
Proof.
  induction 1 as [x l [e He]|x l _ [e He]]; cbn.
  - rewrite He. by exists e.
  - destruct (body x) as [y|e']; cbn; [|by exists e'].
    rewrite He. by exists e.
Qed.

End ForEach.

(** ** The top-rated pass *)

Lemma rating_doc_ok (t : dtypes) (r : row) (c : Z) :
  ratings_count r = Some c →
  ∃ d, rating_doc t r = Ok d
       ∧ doc_id d = "TopRated-" +:+ str_id (book_id r)
       ∧ meta d = TopRated (title r) (authors r) (py_float (average_rating r)) c.
Proof. intros Hc. unfold rating_doc. rewrite Hc. cbn. eauto. Qed.

Lemma rating_doc_inv (t : dtypes) (r : row) (d : Document) :
  rating_doc t r = Ok d → doc_id d = "TopRated-" +:+ str_id (book_id r).
Proof.
  unfold rating_doc. destruct (ratings_count r); cbn; [|done]. by intros [= <-].
Qed.

Lemma rating_doc_raise (t : dtypes) (r : row) :
  ratings_count r = None →
  rating_doc t r = Raise (ValueError "cannot convert float NaN to integer").
Proof. intros Hc. unfold rating_doc. by rewrite Hc. Qed.

(** On a catalogue of at most 50 records the pass raises as soon as one
    record lacks its ratings count, whatever the sort does. *)
Lemma top_rated_pass_raises (s : Sorter) (df : list row) (r : row) :
  (length df ≤ 50)%nat → r ∈ df → ratings_count r = None →
  ∃ e, top_rated_pass s df = Raise e.
Proof.
  intros Hlen Hr Hc. unfold top_rated_pass, top_books.
  rewrite take_ge by (rewrite sort_values_length; lia).
  apply for_each_raise, Exists_exists. exists r. split.
  - by rewrite sort_values_perm.
  - eexists. by apply rating_doc_raise.
Qed.

(** The script builds its list of documents whenever every record has a
    ratings count, whatever else is missing. *)
Lemma documents_return (s : Sorter) (df : list row) :
  Forall (λ r, is_Some (ratings_count r)) df →
  ∃ docs, documents s df = Ok docs.
Proof.
  intros Hcounts. unfold documents.
  destruct (for_each_ok (rating_doc (dtypes_of df)) (top_books s df))
    as (top & Htop & _).
  { apply Forall_forall. intros r Hr.
    rewrite Forall_forall in Hcounts.
    destruct (Hcounts r) as [c Hc].
    { apply (subseteq_take 50) in Hr. by rewrite sort_values_perm in Hr. }
    destruct (rating_doc_ok (dtypes_of df) r c Hc) as (d & Hd & _). eauto. }
  unfold top_rated_pass. rewrite Htop. cbn. eauto.
Qed.

(** C1 (evaluation at the failing input): on a catalogue of one record
    whose ratings count is null the Book pass gives its document, with
    [None] for the count, and the top-rated pass raises, so the script has
    no list of documents. *)
Theorem missing_count_raises (s : Sorter) :
  (meta <$> book_pass (normalise <$> [book_uncounted]))
  = [Book (IdInt 3) "C" ["Z"] (Some 2001) (Some 2000) (Some (4 # 1)) None ""]
  ∧ (df ← load_jsonl_to_df [Some book_uncounted] (Some 10000); documents s df)
    = Raise (ValueError "cannot convert float NaN to integer").
Proof.
  split; [reflexivity|].
  set (df := normalise <$> [book_uncounted]).
  assert (load_jsonl_to_df [Some book_uncounted] (Some 10000) = Ok df)
    as -> by (by vm_compute).
  unfold mbind at 1, result_bind at 1, bind at 1.
  unfold documents, top_rated_pass, top_books, df. cbn [fmap list_fmap].
  rewrite sort_values_single. reflexivity.
Qed.

(** C2 (amended): the top-rated pass takes the first 50 rows of the whole
    frame sorted on the rating, highest first and the rows without a rating
    last, so it selects min(50, number of records) rows, rated or not; the
    selected rows are in that order, each of them comes before every row
    left out, and when all of them have a ratings count the pass gives one
    TopRated document for each, in the same order. *)
Theorem top_rated_selection (s : Sorter) (df : list row) :
  ∃ ranked : list row,
    ranked ≡ₚ df
    ∧ StronglySorted (λ a b, in_order false (average_rating a) (average_rating b)) ranked
    ∧ top_books s df = take 50 ranked
    ∧ length (top_books s df) = (50 `min` length df)%nat
    ∧ StronglySorted (λ a b, in_order false (average_rating a) (average_rating b))
        (top_books s df)
    ∧ (∀ r r', r ∈ top_books s df → r' ∈ drop 50 ranked →
         in_order false (average_rating r) (average_rating r'))
    ∧ (Forall (λ r, is_Some (ratings_count r)) (top_books s df) →
       ∃ docs, top_rated_pass s df = Ok docs
         ∧ Forall2 (λ r d,
              doc_id d = "TopRated-" +:+ str_id (book_id r)
              ∧ ∃ c, ratings_count r = Some c
                  ∧ meta d = TopRated (title r) (authors r)
                                      (py_float (average_rating r)) c)
             (top_books s df) docs).
Proof.
  exists (sort_values s average_rating false df).
  pose proof (sort_values_sorted s row average_rating false df) as Hsorted.
  rewrite <- (take_drop 50 (sort_values s average_rating false df)) in Hsorted.
  split_and!.
  - apply sort_values_perm.
  - apply sort_values_sorted.
  - reflexivity.
  - unfold top_books. by rewrite length_take, sort_values_length.
  - by apply StronglySorted_app_1_l in Hsorted.
  - intros r r' Hr Hr'.
    exact (StronglySorted_app_1_elem_of _ _ _ r r' Hsorted Hr Hr').
  - intros Hcounts. unfold top_rated_pass.
    destruct (for_each_ok (rating_doc (dtypes_of df)) (top_books s df)) as (docs & Hdocs & Hall).
    { eapply Forall_impl; [exact Hcounts|]. intros r [c Hc].
      destruct (rating_doc_ok (dtypes_of df) r c Hc) as (d & Hd & _). eauto. }
    exists docs. split; [done|].
    eapply Forall2_impl; [exact Hall|]. intros r d Hd. cbn in Hd.
    split; [by eapply rating_doc_inv|].
    unfold rating_doc in Hd. destruct (ratings_count r) as [c|]; [|done].
    exists c. split; [done|]. cbn in Hd. by injection Hd as <-.
Qed.

(** ** Identifiers *)

Lemma string_length_app (s t : string) :
  String.length (s +:+ t) = (String.length s + String.length t)%nat.
Proof.
  induction s as [|a s IH]; [done|].
  change (String a s +:+ t) with (String a (s +:+ t)). cbn. by rewrite IH.
Qed.

Lemma string_app_inj_r (s1 s2 t : string) : s1 +:+ t = s2 +:+ t → s1 = s2.
Proof.
  revert s2. induction s1 as [|a s1 IH]; intros [|b s2] Heq; [done| | |].
  - apply (f_equal String.length) in Heq.
    change (String b s2 +:+ t) with (String b (s2 +:+ t)) in Heq.
    cbn in Heq. rewrite !string_length_app in Heq. cbn in Heq. exfalso. lia.
  - apply (f_equal String.length) in Heq.
    change (String a s1 +:+ t) with (String a (s1 +:+ t)) in Heq.
    cbn in Heq. rewrite !string_length_app in Heq. cbn in Heq. exfalso. lia.
  - change (String a (s1 +:+ t) = String b (s2 +:+ t)) in Heq.
    injection Heq as -> Htail. f_equal. by apply IH.
Qed.

Lemma show_decade_inj (is_int : bool) (d1 d2 : Z) :
  show_int_cell is_int (Some d1) = show_int_cell is_int (Some d2) → d1 = d2.
Proof.
  destruct is_int; cbn.
  - apply (inj pretty).
  - rewrite !str_float_integral. intros Heq%string_app_inj_r.
    by apply (inj pretty) in Heq.
Qed.

Lemma book_pass_ids (df : list row) :
  doc_id <$> book_pass df = (λ r, str_id (book_id r)) <$> df.
Proof. unfold book_pass. by rewrite <- list_fmap_compose. Qed.

Lemma author_pass_ids (s : Sorter) (df : list row) :
  doc_id <$> author_pass s df
  = (λ a, "Author-" +:+ a) <$> (books_by_author s df).*1.
Proof. unfold author_pass. by rewrite <- !list_fmap_compose. Qed.

Lemma decade_pass_ids (s : Sorter) (df : list row) :
  doc_id <$> decade_pass s df
  = (λ d, "Decade-" +:+ show_int_cell (decade_is_int df) (Some d))
      <$> (books_by_decade s df).*1.
Proof. unfold decade_pass. by rewrite <- !list_fmap_compose. Qed.

Lemma top_rated_pass_ids (s : Sorter) (df : list row) (docs : list Document) :
  top_rated_pass s df = Ok docs →
  doc_id <$> docs
  = (λ i, "TopRated-" +:+ i) <$> take 50 ((λ r, str_id (book_id r))
      <$> sort_values s average_rating false df).
Proof.
  intros Hdocs%for_each_inv. rewrite <- fmap_take. fold (top_books s df).
  rewrite <- list_fmap_compose.
  induction Hdocs as [|r d rows docs Hd _ IH]; [done|].
  cbn. rewrite IH. f_equal. by eapply rating_doc_inv.
Qed.

Lemma books_by_author_NoDup (s : Sorter) (df : list row) :
  NoDup (books_by_author s df).*1.
Proof.
  unfold books_by_author. rewrite sort_values_perm. apply groupby_size_NoDup.
Qed.

Lemma books_by_decade_NoDup (s : Sorter) (df : list row) :
  NoDup (books_by_decade s df).*1.
Proof.
  unfold books_by_decade. rewrite sort_values_perm. apply groupby_size_NoDup.
Qed.

Lemma reserved_author (a : string) : reserved ("Author-" +:+ a) = true.
Proof. reflexivity. Qed.

Lemma reserved_decade (d : string) : reserved ("Decade-" +:+ d) = true.
Proof. reflexivity. Qed.

Lemma reserved_top_rated (i : string) : reserved ("TopRated-" +:+ i) = true.
Proof. reflexivity. Qed.

(** C3 (amended): when the records' textual identifiers are pairwise
    distinct and none of them starts with [Author-], [Decade-] or
    [TopRated-], no two documents of the list share an identifier. *)
Theorem identifiers_distinct (s : Sorter) (df : list row) (docs : list Document) :
  NoDup ((λ r, str_id (book_id r)) <$> df) →
  Forall (λ r, reserved (str_id (book_id r)) = false) df →
  documents s df = Ok docs →
  NoDup (doc_id <$> docs).
Proof.
  intros Hids Hfree Hdocs. unfold documents in Hdocs.
  destruct (top_rated_pass s df) as [top|e] eqn:Htop; [|done].
  cbn in Hdocs. injection Hdocs as <-.
  rewrite !fmap_app, book_pass_ids, author_pass_ids, decade_pass_ids,
    (top_rated_pass_ids s df top Htop).
  apply NoDup_app. split_and!.
  - done.
  - intros i (r & -> & Hr)%list_elem_of_fmap Hi.
    rewrite Forall_forall in Hfree. specialize (Hfree r Hr).
    rewrite !elem_of_app in Hi.
    destruct Hi as [(a & Hi & _)%list_elem_of_fmap
                   |[(d & Hi & _)%list_elem_of_fmap
                    |(t & Hi & _)%list_elem_of_fmap]];
      rewrite Hi in Hfree.
    + by rewrite reserved_author in Hfree.
    + by rewrite reserved_decade in Hfree.
    + by rewrite reserved_top_rated in Hfree.
  - apply NoDup_app. split_and!.
    + apply (NoDup_fmap_2 _), books_by_author_NoDup.
    + intros i (a & -> & _)%list_elem_of_fmap Hi.
      rewrite elem_of_app in Hi.
      destruct Hi as [(d & Hi & _)%list_elem_of_fmap
                     |(t & Hi & _)%list_elem_of_fmap]; discriminate Hi.
    + apply NoDup_app. split_and!.
      * apply NoDup_fmap_2_strong; [|apply books_by_decade_NoDup].
        intros d1 d2 _ _ Heq. apply (inj _) in Heq. by eapply show_decade_inj.
      * intros i (d & -> & _)%list_elem_of_fmap (t & Hi & _)%list_elem_of_fmap.
        discriminate Hi.
      * apply (NoDup_fmap_2 _).
        eapply sublist_NoDup; [|apply sublist_take].
        by rewrite sort_values_perm.
Qed.

(** C3 (counterexample): a catalogue in which two records carry the
    identifier 1 gives two Book documents with the identifier ["1"] (and
    two TopRated documents with ["TopRated-1"]). *)
Lemma duplicate_record_ids :
  ∃ docs,
    (df ← load_jsonl_to_df [Some (book_A ""); Some book_A_again] (Some 10000);
     documents MergeSorter.sorter df) = Ok docs
    ∧ doc_id <$> docs
      = ["1"; "1"; "Author-X"; "Decade-1990"; "TopRated-1"; "TopRated-1"]
    ∧ ¬ NoDup (doc_id <$> docs).
Proof.
  eexists. split; [by vm_compute|]. split; [reflexivity|].
  cbn. intros Hnd. apply NoDup_cons in Hnd as [Hin _]. apply Hin. left.
Qed.

(** C2 (counterexample): on a catalogue of two records of which the second
    has no rating, the top-rated pass gives two documents, one of them for
    the record without rating, although one record only has a rating. *)
Lemma unrated_record_selected :
  ∃ docs,
    top_rated_pass MergeSorter.sorter (normalise <$> [book_A ""; book_unrated])
      = Ok docs
    ∧ doc_id <$> docs = ["TopRated-1"; "TopRated-4"]
    ∧ average_rating (normalise book_unrated) = None
    ∧ filter (λ r, is_Some (average_rating r))
        (normalise <$> [book_A ""; book_unrated])
      = [normalise (book_A "")].
Proof.
  eexists. split; [by vm_compute|]. split_and!; reflexivity.
Qed.

(** ** Build or load *)

Section BuildOrLoad.
Context {Vector Index : Type}.
Context (embed_documents : list string → list Vector).
Context (index_of : list (Vector * Document) → Index).

Local Abbreviation vector_store := (Store.vector_store embed_documents index_of).

Lemma vector_store_found (db_location : string) (documents : list Document)
    (w : Store.world) :
  is_Some (Store.files w !! db_location) →
  vector_store db_location documents w = Store.load_local db_location w.
Proof.
  intros Hfound. unfold Store.vector_store, Store.prog_bind, Store.path_exists.
  by rewrite bool_decide_true.
Qed.

Lemma vector_store_absent (db_location : string) (documents : list Document)
    (w : Store.world) :
  Store.files w !! db_location = None →
  vector_store db_location documents w
  = let ix := index_of (zip (embed_documents (page_content <$> documents)) documents) in
    (Ok ix,
     {| Store.files := <[db_location := Store.Bundle ix]> (Store.files w);
        Store.calls := Store.calls w
                       ++ [Store.Embed (page_content <$> documents);
                           Store.Save db_location] |}).
Proof.
  intros Habsent. unfold Store.vector_store, Store.prog_bind, Store.path_exists.
  rewrite bool_decide_false by (rewrite Habsent; by intros [? ?]).
  cbn. unfold Store.prog_ret, Store.log. cbn. by rewrite <- app_assoc.
Qed.


End BuildOrLoad.

(** ** The statements at sample catalogues *)



Lemma book_content_nan_witness :
  (normalise <$> [book_A ""; book_unrated]) !! 1%nat = Some (normalise book_unrated)
  ∧ ∃ d year rating count,
      book_pass (normalise <$> [book_A ""; book_unrated]) !! 1%nat = Some d
      ∧ page_content d =
          "Book: " +:+ title (normalise book_unrated) +:+ " by " +:+
          join ", " (authors (normalise book_unrated)) +:+
          ". Published in " +:+ year +:+ ", average rating " +:+ rating +:+
          " from " +:+ count +:+ " ratings."
      ∧ (publication_year (normalise book_unrated) = None → year = "nan")
      ∧ (average_rating (normalise book_unrated) = None → rating = "nan")
      ∧ (ratings_count (normalise book_unrated) = None → count = "nan").
Proof.
  split; [reflexivity|].
  apply (book_content_nan (normalise <$> [book_A ""; book_unrated]) 1
           (normalise book_unrated)).
  reflexivity.
Defined.

Lemma identifiers_distinct_witness :
  ∃ docs,
    NoDup ((λ r, str_id (book_id r)) <$> (normalise <$> [book_A ""; book_B ""]))
    ∧ Forall (λ r, reserved (str_id (book_id r)) = false)
        (normalise <$> [book_A ""; book_B ""])
    ∧ documents MergeSorter.sorter (normalise <$> [book_A ""; book_B ""]) = Ok docs
    ∧ NoDup (doc_id <$> docs).
Proof.
  assert (NoDup ((λ r, str_id (book_id r)) <$> (normalise <$> [book_A ""; book_B ""])))
    as Hids.
  { vm_compute. apply NoDup_cons_2; [|apply NoDup_singleton].
    intros Hin%list_elem_of_singleton. discriminate Hin. }
  assert (Forall (λ r, reserved (str_id (book_id r)) = false)
            (normalise <$> [book_A ""; book_B ""])) as Hfree.
  { repeat constructor. }
  eexists. split; [exact Hids|]. split; [exact Hfree|].
  assert (∀ m docs, m = Ok docs →
            documents MergeSorter.sorter (normalise <$> [book_A ""; book_B ""]) = m →
            m = Ok docs ∧ NoDup (doc_id <$> docs)) as Hstep.
  { intros m docs -> Hdocs. split; [reflexivity|].
    exact (identifiers_distinct MergeSorter.sorter _ docs Hids Hfree Hdocs). }
  match goal with
  | |- ?lhs = _ ∧ _ =>
      let v := eval vm_compute in lhs in
      destruct (Hstep v _ eq_refl) as [_ Hnd]; [by vm_compute|];
      split; [by vm_compute | exact Hnd]
  end.
Defined.

(** * Further properties of the code *)

(** ** The loader: outcomes, batches, decades *)


Lemma chunks_cons (k : nat) (ln : line) (text : list line) :
  chunks (S k) (ln :: text)
  = take (S k) (ln :: text) :: chunks (S k) (drop (S k) (ln :: text)).
Proof. by simp chunks. Qed.

Lemma chunks_bounded (n : nat) (text : list line) :
  Forall (λ batch, (0 < length batch ≤ n)%nat) (chunks n text).
Proof.
  funelim (chunks n text); simp chunks; [constructor..|].
  constructor; [|done]. rewrite length_take. cbn [length]. lia.
Qed.

Lemma chunks_full (n : nat) (text : list line) (i : nat) (batch : list line) :
  chunks n text !! i = Some batch →
  (S i < length (chunks n text))%nat →
  length batch = n.
Proof.
  revert i. funelim (chunks n text); simp chunks; intros i Hi Hlen; [done..|].
  destruct i as [|i].
  - injection Hi as <-.
    change (ln :: take k text) with (take (S k) (ln :: text)).
    rewrite length_take.
    destruct (drop (S k) (ln :: text)) as [|ln' rest] eqn:Hdrop.
    { simp chunks in Hlen. cbn in Hlen. lia. }
    apply (f_equal length) in Hdrop. rewrite length_drop in Hdrop.
    cbn [length] in *. lia.
  - cbn in Hi, Hlen.
    match goal with IH : context [length _ = S k] |- _ =>
      apply (IH batch i Hi) end.
    cbn. lia.
Qed.

(** X2: read with a positive batch size, the file is taken in batches that
    are never empty and never longer than the batch size; every batch but
    the last is full, and the batches put end to end are the file. *)
Theorem chunks_sizes (n : nat) (text : list line) :
  (0 < n)%nat →
  Forall (λ batch, (0 < length batch ≤ n)%nat) (chunks n text)
  ∧ (∀ i batch, chunks n text !! i = Some batch →
       (S i < length (chunks n text))%nat → length batch = n)
  ∧ concat (chunks n text) = text.
Proof.
  intros Hn. split_and!.
  - apply chunks_bounded.
  - apply chunks_full.
  - by apply chunks_concat.
Qed.

(** The decade of a plain year: the multiple of 10 at or below it, a
    number of the same range. *)
Lemma decade_of_plain (y : Z) :
  plain y →
  (y `div` 10 * 10) `mod` 10 = 0
  ∧ y `div` 10 * 10 ≤ y < y `div` 10 * 10 + 10
  ∧ - 10 ^ 15 ≤ y `div` 10 * 10 < 10 ^ 15.
Proof.
  unfold plain. intros Hy.
  pose proof (Z.div_mod y 10) as Hdiv. pose proof (Z.mod_pos_bound y 10).
  split; [apply Z.mod_mul; lia|]. lia.
Qed.

(** X3: every row of the loaded frame has a decade exactly when it has a
    year; for years in the range of the model the decade is then the
    multiple of 10 with [decade <= year < decade + 10], for negative years
    too, and it is in that range as well. *)
Theorem decade_of_year (raw : list json_record) :
  Forall (λ r, plain_cell (publication_year r)) (normalise <$> raw) →
  Forall (λ r, match publication_year r, decade r with
               | Some y, Some d =>
                   d `mod` 10 = 0 ∧ d ≤ y < d + 10 ∧ - 10 ^ 15 ≤ d < 10 ^ 15
               | None, None => True
               | _, _ => False
               end) (normalise <$> raw).
Proof.
  rewrite !Forall_fmap. intros Hplain.
  eapply Forall_impl; [exact Hplain|]. intros j. cbn.
  destruct (to_numeric (j_publication_year j)) as [y|]; cbn; [|done].
  apply decade_of_plain.
Qed.

(** ** The groups of the aggregate passes *)

Section GroupSizes.
Context {K : Type} `{EqDecision K}.
Implicit Types (k : K) (groups : list (K * nat)) (keys : list K).

Lemma size_of_tally k k' groups :
  size_of k (tally k' groups)
  = (size_of k groups + if decide (k' = k) then 1 else 0)%nat.
Proof.
  unfold size_of. induction groups as [|[k0 c] groups IH]; cbn.
  - repeat case_decide; lia.
  - destruct (decide (k' = k0)) as [->|Hne]; cbn.
    + repeat case_decide; subst; try done; lia.
    + rewrite IH. repeat case_decide; subst; try done; lia.
Qed.

Lemma size_of_foldl k keys groups :
  size_of k (foldl (λ g k', tally k' g) groups keys)
  = (size_of k groups + occurrences k keys)%nat.
Proof.
  revert groups. induction keys as [|k' keys IH]; intros groups; cbn [foldl].
  - unfold occurrences. cbn. lia.
  - rewrite IH, size_of_tally. unfold occurrences. rewrite filter_cons.
    repeat case_decide; subst; try done; cbn; lia.
Qed.

Lemma size_of_group_sizes k keys :
  size_of k (group_sizes keys) = occurrences k keys.
Proof. unfold group_sizes. by rewrite size_of_foldl. Qed.

Lemma size_of_elem groups k c :
  NoDup groups.*1 → (k, c) ∈ groups → size_of k groups = c.
Proof.
  unfold size_of. induction groups as [|[k0 c0] groups IH]; cbn.
  - by intros _ ?%elem_of_nil.
  - intros [Hk0 Hnd]%NoDup_cons [Heq|Hin]%elem_of_cons.
    + injection Heq as <- <-. rewrite decide_True by done.
      assert (sum_list_with (λ g, if decide (g.1 = k) then g.2 else 0%nat) groups
              = 0%nat) as ->; [|lia].
      clear IH Hnd. induction groups as [|[k1 c1] groups IH]; cbn; [done|].
      apply not_elem_of_cons in Hk0 as [Hne Hk0]. cbn in Hne.
      rewrite decide_False by done. by apply IH.
    + rewrite decide_False.
      * by apply IH.
      * intros ->. apply Hk0. apply list_elem_of_fmap. by exists (k, c).
Qed.

Lemma size_of_absent groups k : k ∉ groups.*1 → size_of k groups = 0%nat.
Proof.
  unfold size_of. induction groups as [|[k0 c0] groups IH]; cbn; [done|].
  intros [Hne Hk]%not_elem_of_cons. rewrite decide_False by done. by apply IH.
Qed.

Lemma tally_positive k groups :
  Forall (λ g, (0 < g.2)%nat) groups → Forall (λ g, (0 < g.2)%nat) (tally k groups).
Proof.
  induction 1 as [|[k0 c0] groups Hc Hall IH]; cbn.
  - constructor; [cbn; lia | constructor].
  - case_decide; constructor; cbn in *; try done; lia.
Qed.

Lemma group_sizes_positive keys :
  Forall (λ g, (0 < g.2)%nat) (group_sizes keys).
Proof.
  unfold group_sizes.
  assert (Forall (λ g : K * nat, (0 < g.2)%nat) []) as Hnil by constructor.
  revert Hnil. generalize (@nil (K * nat)).
  induction keys as [|k keys IH]; intros groups Hpos; cbn; [done|].
  by apply IH, tally_positive.
Qed.

Lemma occurrences_pos k keys : (0 < occurrences k keys)%nat ↔ k ∈ keys.
Proof.
  unfold occurrences. induction keys as [|k' keys IH].
  - cbn. split; [lia | by intros ?%elem_of_nil].
  - rewrite filter_cons, elem_of_cons. case_decide; subst; cbn.
    + split; [by left | lia].
    + rewrite IH. split; [by right | by intros [?|?]].
Qed.

(** A frame of groups that is the grouping of [keys] up to the order of its
    rows. *)
Lemma grouping_exact keys groups k c :
  groups ≡ₚ group_sizes keys → (k, c) ∈ groups →
  c = occurrences k keys ∧ (0 < c)%nat.
Proof.
  intros Hperm Hin. rewrite Hperm in Hin. split.
  - rewrite <- size_of_group_sizes. symmetry.
    apply size_of_elem; [apply group_sizes_NoDup | done].
  - pose proof (group_sizes_positive keys) as Hpos.
    rewrite Forall_forall in Hpos. exact (Hpos _ Hin).
Qed.

Lemma grouping_complete keys groups k :
  groups ≡ₚ group_sizes keys → k ∈ keys → ∃ c, (k, c) ∈ groups.
Proof.
  intros Hperm Hk. setoid_rewrite Hperm.
  destruct (decide (k ∈ (group_sizes keys).*1)) as [Hin|Hout].
  - apply list_elem_of_fmap in Hin as ([k' c] & -> & Hin). by exists c.
  - apply size_of_absent in Hout. rewrite size_of_group_sizes in Hout.
    apply occurrences_pos in Hk. lia.
Qed.

Lemma occurrences_omap {A} (f : A → option K) (l : list A) k :
  occurrences k (omap f l) = length (filter (λ x, f x = Some k) l).
Proof.
  unfold occurrences. induction l as [|x l IH]; [done|].
  rewrite filter_cons. cbn. destruct (f x) as [k'|] eqn:Hfx.
  - rewrite filter_cons.
    destruct (decide (k' = k)) as [->|Hne].
    + rewrite decide_True by done. cbn. by rewrite IH.
    + rewrite decide_False by congruence. done.
  - rewrite decide_False by done. done.
Qed.

End GroupSizes.

Lemma books_by_author_groups (s : Sorter) (df : list row) :
  books_by_author s df ≡ₚ group_sizes (df ≫= (λ r, strip <$> authors r)).
Proof.
  unfold books_by_author, groupby_size.
  by rewrite sort_values_perm, merge_sort_Permutation, omap_column, df_exploded_keys.
Qed.

Lemma books_by_decade_groups (s : Sorter) (df : list row) :
  books_by_decade s df ≡ₚ group_sizes (omap decade df).
Proof.
  unfold books_by_decade, groupby_size.
  by rewrite sort_values_perm, merge_sort_Permutation, omap_column.
Qed.

(** X4: every AuthorAggregate document names an author that occurs in the
    corpus and its Count is the number of author entries whose trimmed name
    is that author (so names that differ in surrounding white space only are
    counted together); every author entry of every record has its
    document. *)
Theorem author_documents_exact (s : Sorter) (df : list row) :
  Forall (λ d, ∃ a c,
            meta d = AuthorAggregate a c
            ∧ doc_id d = "Author-" +:+ a
            ∧ (0 < c)%nat
            ∧ c = occurrences a (df ≫= (λ r, strip <$> authors r)))
    (author_pass s df)
  ∧ (∀ r a, r ∈ df → a ∈ authors r →
       ∃ d, d ∈ author_pass s df ∧ doc_id d = "Author-" +:+ strip a).
Proof.
  split.
  - unfold author_pass. apply Forall_fmap, Forall_forall. intros [a c] Hin.
    exists a, c. cbn.
    destruct (grouping_exact _ _ a c (books_by_author_groups s df) Hin) as [-> Hpos].
    done.
  - intros r a Hr Ha.
    destruct (grouping_complete (df ≫= (λ r, strip <$> authors r))
                (books_by_author s df) (strip a)) as [c Hc].
    { apply books_by_author_groups. }
    { apply list_elem_of_bind. exists r. split; [|done].
      apply list_elem_of_fmap. by exists a. }
    exists (aggDoc (strip a, c)). split; [|done].
    unfold author_pass. apply list_elem_of_fmap. by exists (strip a, c).
Qed.

(** X5: every DecadeAggregate document stands for a decade that occurs in
    the frame and its Count is the number of records of that decade; every
    record that has a decade has its document. *)
Theorem decade_documents_exact (s : Sorter) (df : list row) :
  Forall (λ d, ∃ dec cnt,
            meta d = DecadeAggregate dec cnt
            ∧ (0 < cnt)%nat
            ∧ cnt = length (filter (λ r, decade r = Some dec) df))
    (decade_pass s df)
  ∧ (∀ r dec, r ∈ df → decade r = Some dec →
       ∃ d cnt, d ∈ decade_pass s df ∧ meta d = DecadeAggregate dec cnt).
Proof.
  split.
  - unfold decade_pass. apply Forall_fmap, Forall_forall. intros [dec cnt] Hin.
    exists dec, cnt. cbn.
    destruct (grouping_exact _ _ dec cnt (books_by_decade_groups s df) Hin)
      as [-> Hpos].
    split_and!; [done..|]. apply occurrences_omap.
  - intros r dec Hr Hdec.
    destruct (grouping_complete (omap decade df) (books_by_decade s df) dec)
      as [cnt Hcnt].
    { apply books_by_decade_groups. }
    { apply list_elem_of_omap. by exists r. }
    exists (decade_doc (decade_is_int df) (dec, cnt)), cnt. split; [|done].
    unfold decade_pass. apply list_elem_of_fmap. by exists (dec, cnt).
Qed.


(** X6: the AuthorAggregate documents come in order of Count, highest
    first. *)
Theorem author_documents_sorted (s : Sorter) (df : list row) :
  StronglySorted (λ d1 d2, (count_of d2 ≤ count_of d1)%nat) (author_pass s df).
Proof.
  unfold author_pass, books_by_author.
  eapply StronglySorted_fmap; [|apply sort_values_sorted].
  intros [a1 c1] [a2 c2]. cbn. rewrite <- Zle_Qle. lia.
Qed.

Lemma group_rows_agree {K} `{EqDecision K} (groups : list (K * nat))
    (g1 g2 : K * nat) :
  NoDup groups.*1 → g1 ∈ groups → g2 ∈ groups → g1.1 = g2.1 → g1 = g2.
Proof.
  destruct g1 as [k c1], g2 as [k' c2]. cbn. intros Hnd H1 H2 <-.
  f_equal. by rewrite <- (size_of_elem groups k c1), <- (size_of_elem groups k c2).
Qed.

Lemma strictly_sorted_keys (l : list (Z * nat)) :
  NoDup l.*1 →
  StronglySorted (λ g1 g2, in_order true (decade_key g1) (decade_key g2)) l →
  StronglySorted (λ g1 g2, g1.1 < g2.1) l.
Proof.
  induction 2 as [|g l Hsorted IH Hall]; [constructor|].
  cbn in H. apply NoDup_cons in H as [Hg Hnd].
  constructor; [by apply IH|].
  apply Forall_forall. intros g' Hg'. rewrite Forall_forall in Hall.
  specialize (Hall g' Hg'). cbn in Hall. rewrite <- Zle_Qle in Hall.
  assert (g.1 ≠ g'.1); [|lia].
  intros Heq. apply Hg. rewrite Heq. apply list_elem_of_fmap. by exists g'.
Qed.

(** X7: the DecadeAggregate documents come in strictly increasing order of
    decade, and they are the same list whatever sort the library runs. *)
Theorem decade_documents_sorted (s s' : Sorter) (df : list row) :
  StronglySorted (λ g1 g2, g1.1 < g2.1) (books_by_decade s df)
  ∧ decade_pass s df = decade_pass s' df.
Proof.
  split.
  - apply strictly_sorted_keys; [apply books_by_decade_NoDup|].
    apply sort_values_sorted.
  - unfold decade_pass. f_equal. unfold books_by_decade.
    eapply StronglySorted_unique_strong;
      [|apply sort_values_sorted|apply sort_values_sorted|].
    + intros g1 g2 H1 H2 H12 H21. cbn in H12, H21.
      rewrite <- Zle_Qle in H12, H21.
      rewrite sort_values_perm in H1, H2.
      eapply group_rows_agree; [apply (groupby_size_NoDup Z.le)|done..|lia].
    + by rewrite !sort_values_perm.
Qed.

(** ** The top-rated pass and the list of documents *)

Lemma for_each_rating_doc_raise (t : dtypes) (rows : list row) :
  Exists (λ r, ratings_count r = None) rows →
  for_each (rating_doc t) rows
  = Raise (ValueError "cannot convert float NaN to integer").
Proof.
  induction 1 as [r rows Hr|r rows _ IH]; cbn.
  - by rewrite rating_doc_raise.
  - destruct (ratings_count r) as [c|] eqn:Hc.
    + destruct (rating_doc_ok t r c Hc) as (d & -> & _). cbn. by rewrite IH.
    + by rewrite rating_doc_raise.
Qed.

Lemma counted_or_not (rows : list row) :
  Forall (λ r, is_Some (ratings_count r)) rows
  ∨ Exists (λ r, ratings_count r = None) rows.
Proof.
  destruct (Forall_Exists_dec (λ r, is_Some (ratings_count r))
              (λ r, ratings_count r = None)
              (λ r, match ratings_count r as o
                      return {is_Some o} + {o = None} with
                    | Some c => left (ex_intro _ c eq_refl)
                    | None => right eq_refl
                    end) rows); auto.
Qed.

(** X8: the top-rated pass gives its documents exactly when every record it
    selects has a ratings count; otherwise it raises ValueError (NaN cannot
    be converted to an integer), and so does the script, which has a list of
    documents exactly when the pass has one. *)
Theorem top_rated_outcome (s : Sorter) (df : list row) :
  (Forall (λ r, is_Some (ratings_count r)) (top_books s df)
   ↔ ∃ docs, top_rated_pass s df = Ok docs)
  ∧ (Exists (λ r, ratings_count r = None) (top_books s df)
     ↔ top_rated_pass s df
       = Raise (ValueError "cannot convert float NaN to integer"))
  ∧ (∀ docs, top_rated_pass s df = Ok docs →
       documents s df
       = Ok (book_pass df ++ author_pass s df ++ decade_pass s df ++ docs))
  ∧ (∀ e, top_rated_pass s df = Raise e → documents s df = Raise e).
Proof.
  assert (Forall (λ r, is_Some (ratings_count r)) (top_books s df) →
          ∃ docs, top_rated_pass s df = Ok docs) as Hok.
  { intros Hall.
    destruct (for_each_ok (rating_doc (dtypes_of df)) (top_books s df))
      as (docs & Hdocs & _); [|by exists docs].
    eapply Forall_impl; [exact Hall|]. intros r [c Hc].
    destruct (rating_doc_ok (dtypes_of df) r c Hc) as (d & Hd & _). eauto. }
  pose proof (for_each_rating_doc_raise (dtypes_of df) (top_books s df)) as Hraise.
  fold (top_rated_pass s df) in Hraise.
  split_and!.
  - split; [exact Hok|]. intros [docs Hdocs].
    destruct (counted_or_not (top_books s df)) as [?|Hnone]; [done|].
    rewrite Hraise in Hdocs by done. discriminate Hdocs.
  - split; [exact Hraise|]. intros Herr.
    destruct (counted_or_not (top_books s df)) as [Hall|?]; [|done].
    destruct (Hok Hall) as [docs Hdocs]. rewrite Hdocs in Herr. discriminate Herr.
  - intros docs Hdocs. unfold documents. by rewrite Hdocs.
  - intros e He. unfold documents. by rewrite He.
Qed.

(** X9: in a frame whose years and ratings counts are in the range of the
    model, the year and the ratings count of a Book sentence are printed
    as the whole column holds them: as integers when no record lacks the
    field, and with [.0] for every record as soon as one record lacks
    it. *)
Theorem book_number_format (df : list row) (i : nat) (r : row) :
  Forall plain_row df →
  df !! i = Some r →
  ∃ d year rating count,
    book_pass df !! i = Some d
    ∧ page_content d =
        "Book: " +:+ title r +:+ " by " +:+ join ", " (authors r) +:+
        ". Published in " +:+ year +:+ ", average rating " +:+ rating +:+
        " from " +:+ count +:+ " ratings."
    ∧ (∀ y, publication_year r = Some y →
         (Forall (λ r', is_Some (publication_year r')) df → year = str_int y)
         ∧ (Exists (λ r', publication_year r' = None) df →
            year = str_int y +:+ ".0"))
    ∧ (∀ c, ratings_count r = Some c →
         (Forall (λ r', is_Some (ratings_count r')) df → count = str_int c)
         ∧ (Exists (λ r', ratings_count r' = None) df →
            count = str_int c +:+ ".0")).
Proof.
  intros _ Hr. exists (doc (dtypes_of df) r).
  exists (show_int_cell (year_is_int (dtypes_of df)) (publication_year r)).
  exists (show_float_cell (rating_is_int (dtypes_of df)) (average_rating r)).
  exists (show_int_cell (count_is_int (dtypes_of df)) (ratings_count r)).
  split_and!.
  - unfold book_pass. by rewrite list_lookup_fmap, Hr.
  - reflexivity.
  - intros y ->. cbn. split.
    + intros Hall. by rewrite forallb_present_true.
    + intros Hone. rewrite forallb_present_false by done.
      apply str_float_integral.
  - intros c ->. cbn. split.
    + intros Hall. by rewrite forallb_present_true.
    + intros Hone. rewrite forallb_present_false by done.
      apply str_float_integral.
Qed.

(** X10: the sentence of a DecadeAggregate document prints its count as an
    integer when every record has a publication year, and as a float
    ([2.0 books]) as soon as one record lacks it. *)
Theorem decade_content_format (s : Sorter) (raw : list json_record) :
  Forall (λ d, ∃ dec cnt count,
            meta d = DecadeAggregate dec cnt
            ∧ page_content d =
                "In the " +:+ str_int dec +:+ "s, " +:+ count +:+
                " books were published."
            ∧ (Forall (λ r, is_Some (publication_year r)) (normalise <$> raw) →
               count = str_int (Z.of_nat cnt))
            ∧ (Exists (λ r, publication_year r = None) (normalise <$> raw) →
               count = str_int (Z.of_nat cnt) +:+ ".0"))
    (decade_pass s (normalise <$> raw)).
Proof.
  unfold decade_pass. rewrite normalised_decade_present.
  apply Forall_fmap, Forall_forall. intros [dec cnt] _.
  exists dec, cnt. eexists. split_and!; [reflexivity..| |]; cbn.
  - intros Hall. by rewrite forallb_present_true.
  - intros Hone. rewrite forallb_present_false by done.
    apply str_float_integral.
Qed.

Lemma group_sizes_keys {K} `{EqDecision K} (keys : list K) (k : K) :
  k ∈ (group_sizes keys).*1 ↔ k ∈ keys.
Proof.
  split.
  - intros ([k' c] & -> & Hin)%list_elem_of_fmap. cbn.
    destruct (grouping_exact keys (group_sizes keys) k' c) as [-> Hpos]; [done..|].
    by apply occurrences_pos.
  - intros Hk. destruct (grouping_complete keys (group_sizes keys) k) as [c Hc];
      [done..|].
    apply list_elem_of_fmap. by exists (k, c).
Qed.

Lemma group_sizes_length {K} `{EqDecision K} (keys : list K) :
  length (group_sizes keys) = length (remove_dups keys).
Proof.
  rewrite <- (length_fmap fst). apply Permutation_length, NoDup_Permutation.
  - apply group_sizes_NoDup.
  - apply NoDup_remove_dups.
  - intros k. by rewrite group_sizes_keys, elem_of_remove_dups.
Qed.

Lemma fmap_constant {A B} (f : A → B) (c : B) (l : list A) :
  Forall (λ x, f x = c) l → f <$> l = replicate (length l) c.
Proof. induction 1 as [|x l Hx _ IH]; cbn; [done|]. by rewrite Hx, IH. Qed.

Lemma rating_doc_type (t : dtypes) (r : row) (d : Document) :
  rating_doc t r = Ok d → doc_type d = "TopRated".
Proof.
  unfold rating_doc. destruct (ratings_count r); cbn; [|done]. by intros [= <-].
Qed.

(** X11: the list of documents is laid out pass after pass: one Book
    document per record, then one AuthorAggregate document per distinct
    trimmed author name, then one DecadeAggregate document per distinct
    decade, then min(50, number of records) TopRated documents. *)
Theorem documents_layout (s : Sorter) (df : list row) (docs : list Document) :
  documents s df = Ok docs →
  doc_type <$> docs
  = replicate (length df) "Book"
    ++ replicate (length (remove_dups (df ≫= (λ r, strip <$> authors r))))
         "AuthorAggregate"
    ++ replicate (length (remove_dups (omap decade df))) "DecadeAggregate"
    ++ replicate (50 `min` length df)%nat "TopRated".
Proof.
  unfold documents. destruct (top_rated_pass s df) as [top|e] eqn:Htop; [|done].
  intros Hdocs. cbn in Hdocs. injection Hdocs as <-.
  rewrite !fmap_app. f_equal; [|f_equal; [|f_equal]].
  - unfold book_pass. rewrite <- list_fmap_compose.
    rewrite <- (length_fmap (doc (dtypes_of df))), length_fmap.
    apply fmap_constant, Forall_forall. done.
  - rewrite <- group_sizes_length, <- (Permutation_length (books_by_author_groups s df)).
    unfold author_pass. rewrite <- list_fmap_compose.
    apply fmap_constant, Forall_forall. done.
  - rewrite <- group_sizes_length, <- (Permutation_length (books_by_decade_groups s df)).
    unfold decade_pass. rewrite <- list_fmap_compose.
    apply fmap_constant, Forall_forall. done.
  - apply for_each_inv in Htop.
    assert (length top = (50 `min` length df)%nat) as <-.
    { rewrite <- (Forall2_length _ _ _ Htop). unfold top_books.
      by rewrite length_take, sort_values_length. }
    apply fmap_constant.
    eapply Forall2_Forall_r; [exact Htop|]. apply Forall_forall.
    intros r _ d Hd. by eapply rating_doc_type.
Qed.

Lemma documents_of_counted (s : Sorter) (df : list row) :
  Forall (λ r, is_Some (ratings_count r)) (top_books s df) →
  ∃ docs, documents s df = Ok docs.
Proof.
  intros Hcounts.
  destruct (for_each_ok (rating_doc (dtypes_of df)) (top_books s df))
    as (top & Htop & _).
  { eapply Forall_impl; [exact Hcounts|]. intros r [c Hc].
    destruct (rating_doc_ok (dtypes_of df) r c Hc) as (d & Hd & _). eauto. }
  unfold documents, top_rated_pass. rewrite Htop. cbn. eauto.
Qed.

Lemma documents_of_uncounted (s : Sorter) (df : list row) :
  Exists (λ r, ratings_count r = None) (top_books s df) →
  documents s df = Raise (ValueError "cannot convert float NaN to integer").
Proof.
  intros Hnone. unfold documents, top_rated_pass.
  by rewrite for_each_rating_doc_raise.
Qed.

(** The list of documents of a frame with a row, whose records have
    distinct identifiers that are not reserved, is one that the build of
    the index takes. *)
Lemma accepted_documents (s : Sorter) (df : list row) (docs : list Document) :
  df ≠ [] →
  NoDup ((λ r, str_id (book_id r)) <$> df) →
  Forall (λ r, reserved (str_id (book_id r)) = false) df →
  documents s df = Ok docs →
  Store.accepted docs.
Proof.
  intros Hdf Hids Hfree Hdocs. unfold documents in Hdocs.
  destruct (top_rated_pass s df) as [top|e] eqn:Htop; [|done].
  cbn in Hdocs. injection Hdocs as <-. split.
  { destruct df as [|r df]; [done|]. discriminate. }
  rewrite !fmap_app, book_pass_ids, author_pass_ids, decade_pass_ids,
    (top_rated_pass_ids s df top Htop).
  rewrite Forall_forall in Hfree.
  assert (∀ i, i ∈ (λ r, str_id (book_id r)) <$> df → reserved i = false)
    as Hbook.
  { intros i (r & -> & Hr)%list_elem_of_fmap. by apply Hfree. }
  repeat (apply NoDup_app; split_and!).
  - done.
  - intros i Hi%Hbook Hin. rewrite !elem_of_app in Hin.
    destruct Hin as [(a & -> & _)%list_elem_of_fmap
                    |[(d & -> & _)%list_elem_of_fmap
                     |(t & -> & _)%list_elem_of_fmap]]; discriminate Hi.
  - apply (NoDup_fmap_2 _), books_by_author_NoDup.
  - intros i (a & -> & _)%list_elem_of_fmap Hin. rewrite elem_of_app in Hin.
    destruct Hin as [(d & Hi & _)%list_elem_of_fmap
                    |(t & Hi & _)%list_elem_of_fmap]; discriminate Hi.
  - apply NoDup_fmap_2_strong; [|apply books_by_decade_NoDup].
    intros d1 d2 _ _ Heq. apply (inj _) in Heq. by eapply show_decade_inj.
  - intros i (d & -> & _)%list_elem_of_fmap (t & Hi & _)%list_elem_of_fmap.
    discriminate Hi.
  - apply (NoDup_fmap_2 _).
    eapply sublist_NoDup; [|apply sublist_take]. by rewrite sort_values_perm.
Qed.

(** ** The store across runs, and the script as a whole *)

Section StoreRuns.
Context {Vector Index : Type}.
Context (sorter : Sorter).
Context (embed_documents : list string → list Vector).
Context (index_of : list (Vector * Document) → Index).

Local Abbreviation vector_store := (Store.vector_store embed_documents index_of).
Local Abbreviation vector_py := (Script.vector_py sorter embed_documents index_of).

(** X12: after a run that found nothing at the location and built the
    index, a second run returns that same index, whatever documents it is
    given: it only loads, the model is not called again and the saved index
    is never checked against the documents. *)
Theorem build_then_load (db_location : string) (documents others : list Document)
    (w : Store.world) :
  Store.files w !! db_location = None →
  ∃ ix w',
    vector_store db_location documents w = (Ok ix, w')
    ∧ ix = index_of (zip (embed_documents (page_content <$> documents)) documents)
    ∧ vector_store db_location others w'
      = (Ok ix, {| Store.files := Store.files w';
                   Store.calls := Store.calls w' ++ [Store.Load db_location] |}).
Proof.
  intros Habsent. do 2 eexists. split; [by apply vector_store_absent|].
  split; [reflexivity|].
  rewrite vector_store_found; cbn.
  - unfold Store.load_local, Store.log. cbn. by rewrite lookup_insert_eq.
  - rewrite lookup_insert_eq. eauto.
Qed.

(** X13: a run writes at the location only, and only when nothing is there:
    every other path keeps what it holds, a run that finds the location
    leaves all files as they are and calls nothing but the load, and a
    location that holds something else than an index makes it raise
    instead of building the index. *)
Theorem store_writes (db_location : string) (documents : list Document)
    (w : Store.world) :
  (∀ path, path ≠ db_location →
     Store.files (vector_store db_location documents w).2 !! path
     = Store.files w !! path)
  ∧ (is_Some (Store.files w !! db_location) →
     Store.files (vector_store db_location documents w).2 = Store.files w
     ∧ Store.calls (vector_store db_location documents w).2
       = Store.calls w ++ [Store.Load db_location])
  ∧ (Store.files w !! db_location = Some Store.Other →
     ∃ e, (vector_store db_location documents w).1 = Raise e).
Proof.
  split_and!.
  - intros path Hpath.
    destruct (Store.files w !! db_location) as [e|] eqn:Hloc.
    + rewrite vector_store_found by (rewrite Hloc; eauto). reflexivity.
    + rewrite vector_store_absent by done. cbn. by rewrite lookup_insert_ne.
  - intros Hfound. rewrite vector_store_found by done. done.
  - intros Hother. rewrite vector_store_found by (rewrite Hother; eauto).
    unfold Store.load_local. cbn. rewrite Hother. eauto.
Qed.

Lemma vector_py_loaded (text : list line) (w : Store.world) :
  records text ≠ [] →
  Forall (λ j, literal j = true) (records text) →
  vector_py text w
  = Store.prog_bind
      (Script.pure (documents sorter (normalise <$> records text)))
      (λ docs, vector_store Script.db_location docs) w.
Proof.
  intros Hraw Hlit. unfold Script.vector_py, Store.prog_bind at 1, Script.pure at 1.
  by rewrite load_chunked_rows.
Qed.

(** X14: the script reads the file and builds the documents before it
    looks at the store.  With an index already saved at [BooksDB], and on
    a file in which no text reads as a number, it returns that index when
    every record the top-rated pass selects has a ratings count, and it
    raises, store untouched, when one of them lacks it; it raises as well
    when the file holds no record, although the saved index makes no use
    of the documents. *)
Theorem vector_py_with_saved_index (text : list line) (w : Store.world) (ix : Index) :
  Store.files w !! Script.db_location = Some (Store.Bundle ix) →
  (records text ≠ [] →
   Forall (λ j, literal j = true) (records text) →
   Forall (λ r, is_Some (ratings_count r))
     (top_books sorter (normalise <$> records text)) →
   vector_py text w
   = (Ok ix, {| Store.files := Store.files w;
                Store.calls := Store.calls w ++ [Store.Load Script.db_location] |}))
  ∧ (records text ≠ [] →
     Forall (λ j, literal j = true) (records text) →
     Exists (λ r, ratings_count r = None)
       (top_books sorter (normalise <$> records text)) →
     vector_py text w
     = (Raise (ValueError "cannot convert float NaN to integer"), w))
  ∧ (records text = [] → ∃ e, vector_py text w = (Raise e, w)).
Proof.
  intros Hix. split_and!.
  - intros Hraw Hlit Hcounts. rewrite vector_py_loaded by done.
    destruct (documents_of_counted sorter _ Hcounts) as [docs Hdocs].
    unfold Store.prog_bind at 1, Script.pure. rewrite Hdocs.
    rewrite vector_store_found by (rewrite Hix; eauto).
    unfold Store.load_local. by rewrite Hix.
  - intros Hraw Hlit Hnone. rewrite vector_py_loaded by done.
    unfold Store.prog_bind at 1, Script.pure.
    by rewrite documents_of_uncounted.
  - intros Hraw. unfold Script.vector_py, Store.prog_bind, Script.pure.
    destruct (load_jsonl_to_df text (Some 10000)) as [df|e] eqn:Hload; [|eauto].
    exfalso. destruct (decide (text = [])) as [->|Htext].
    + by rewrite load_chunked_empty in Hload.
    + rewrite (load_no_record text (Some 10000)) in Hload; [done..|].
      right. right. exists 10000. split_and!; [done|lia|done].
Qed.

(** X15: on a first run, with nothing at [BooksDB], a file that holds a
    record, in which no text reads as a number and whose records all have
    a ratings count and distinct identifiers that are not reserved, gives
    a list of documents that the build of the index takes, and the index
    of these documents: the model is called once on their contents and
    the index is saved at [BooksDB]. *)
Theorem vector_py_first_run (text : list line) (w : Store.world) :
  Store.files w !! Script.db_location = None →
  records text ≠ [] →
  Forall (λ j, literal j = true) (records text) →
  Forall (λ r, is_Some (ratings_count r)) (normalise <$> records text) →
  NoDup ((λ r, str_id (book_id r)) <$> (normalise <$> records text)) →
  Forall (λ r, reserved (str_id (book_id r)) = false) (normalise <$> records text) →
  ∃ docs,
    documents sorter (normalise <$> records text) = Ok docs
    ∧ Store.accepted docs
    ∧ vector_py text w
      = let ix := index_of (zip (embed_documents (page_content <$> docs)) docs) in
        (Ok ix,
         {| Store.files := <[Script.db_location := Store.Bundle ix]> (Store.files w);
            Store.calls := Store.calls w
                           ++ [Store.Embed (page_content <$> docs);
                               Store.Save Script.db_location] |}).
Proof.
  intros Habsent Hraw Hlit Hcounts Hids Hfree.
  destruct (documents_return sorter _ Hcounts) as [docs Hdocs].
  exists docs. split; [done|]. split.
  { eapply accepted_documents; [|exact Hids|exact Hfree|exact Hdocs].
    destruct (records text); [done | discriminate]. }
  rewrite vector_py_loaded by done.
  unfold Store.prog_bind at 1, Script.pure. rewrite Hdocs.
  by apply vector_store_absent.
Qed.

End StoreRuns.

(** ** The chat loop *)

Section QuitCommands.
Import Stdlib.Strings.Ascii.

Lemma lower_char_space (c : Ascii.ascii) :
  is_space (Chat.lower_char c) = is_space c.
Proof. destruct c as [[] [] [] [] [] [] [] []]; reflexivity. Qed.

Lemma lower_char_q (c : Ascii.ascii) :
  Chat.lower_char c = "q"%char ↔ c = "q"%char ∨ c = "Q"%char.
Proof.
  destruct c as [[] [] [] [] [] [] [] []]; vm_compute;
    (split; [intros [=]; auto | intros [[=]|[=]]; reflexivity]).
Qed.

Lemma lower_app (a b : string) :
  Chat.lower (a +:+ b) = Chat.lower a +:+ Chat.lower b.
Proof.
  induction a as [|c a IH]; [done|].
  change (String c a +:+ b) with (String c (a +:+ b)). cbn. by rewrite IH.
Qed.

Lemma lower_split (s a b : string) :
  Chat.lower s = a +:+ b →
  ∃ s1 s2, s = s1 +:+ s2 ∧ Chat.lower s1 = a ∧ Chat.lower s2 = b.
Proof.
  revert s. induction a as [|c a IH]; intros s Hs.
  - by exists "", s.
  - destruct s as [|c0 s]; [done|].
    change (String c a +:+ b) with (String c (a +:+ b)) in Hs.
    cbn in Hs. injection Hs as Hc Hs.
    destruct (IH s Hs) as (s1 & s2 & -> & <- & <-).
    exists (String c0 s1), s2. split_and!; [done| |done]. cbn. by rewrite Hc.
Qed.

Lemma blank_lower (s : string) : blank (Chat.lower s) = blank s.
Proof.
  induction s as [|c s IH]; [done|]. cbn. by rewrite lower_char_space, IH.
Qed.

Lemma lstrip_split (s : string) : ∃ l, s = l +:+ lstrip s ∧ blank l = true.
Proof.
  induction s as [|c s (l & Hs & Hl)]; [by exists ""|].
  cbn. destruct (is_space c) eqn:Hc.
  - exists (String c l). split.
    + change (String c l +:+ lstrip s) with (String c (l +:+ lstrip s)).
      by rewrite <- Hs.
    + cbn. by rewrite Hc, Hl.
  - by exists "".
Qed.

Lemma lstrip_blank_app (l u : string) :
  blank l = true → lstrip (l +:+ u) = lstrip u.
Proof.
  induction l as [|c l IH]; [done|]. cbn.
  intros [Hc Hl]%andb_true_iff.
  change (String c l +:+ u) with (String c (l +:+ u)). cbn. rewrite Hc. by apply IH.
Qed.

Lemma rstrip_blank (r : string) : blank r = true → rstrip r = "".
Proof.
  induction r as [|c r IH]; [done|]. cbn.
  intros [Hc Hr]%andb_true_iff. by rewrite IH, Hc.
Qed.

Lemma rstrip_nil_blank (r : string) : rstrip r = "" → blank r = true.
Proof.
  induction r as [|c r IH]; [done|]. cbn.
  destruct (rstrip r) as [|c' t]; [|done].
  destruct (is_space c); [|done]. intros _. by rewrite IH.
Qed.

Lemma rstrip_single (u : string) (c : Ascii.ascii) :
  rstrip u = String c "" →
  ∃ r, u = String c r ∧ blank r = true ∧ is_space c = false.
Proof.
  destruct u as [|c0 u]; [done|]. cbn.
  destruct (rstrip u) as [|c' t] eqn:Hu.
  - destruct (is_space c0) eqn:Hc0; [done|]. intros [= ->].
    exists u. split_and!; [done| |done]. by apply rstrip_nil_blank.
  - intros [=].
Qed.

(** X16: the lines that end the chat are those made of white space, one
    letter q in either case, and white space. *)
Theorem quit_commands (question : string) :
  Chat.is_quit question = true
  ↔ ∃ l r c, question = l +:+ String c r
       ∧ blank l = true ∧ blank r = true ∧ (c = "q"%char ∨ c = "Q"%char).
Proof.
  unfold Chat.is_quit. rewrite String.eqb_eq. unfold strip. split.
  - intros Hq.
    destruct (lstrip_split (Chat.lower question)) as (l' & Hl' & Hblank).
    destruct (rstrip_single _ _ Hq) as (r' & Hr' & Hblank' & _).
    rewrite Hr' in Hl'.
    destruct (lower_split _ _ _ Hl') as (s1 & s2 & -> & Hs1 & Hs2).
    destruct s2 as [|c r]; [done|]. cbn in Hs2. injection Hs2 as Hc Hr.
    exists s1, r, c. split_and!; [done| | |by apply lower_char_q].
    + by rewrite <- blank_lower, Hs1.
    + by rewrite <- blank_lower, Hr.
  - intros (l & r & c & -> & Hl & Hr & Hc).
    rewrite lower_app.
    change (Chat.lower (String c r))
      with (String (Chat.lower_char c) (Chat.lower r)).
    apply lower_char_q in Hc. rewrite Hc.
    assert (blank (Chat.lower l) = true) as Hl' by (by rewrite blank_lower).
    assert (blank (Chat.lower r) = true) as Hr' by (by rewrite blank_lower).
    rewrite lstrip_blank_app by done.
    change (rstrip (String "q"%char (Chat.lower r)) = "q").
    cbn [rstrip]. by rewrite (rstrip_blank _ Hr').
Qed.

End QuitCommands.

Section ChatLoop.
Context (retriever : string → list Document).
Context (chain : list Document → string → string).

(** What the program writes for one question that is answered. *)
Local Abbreviation exchange := (λ question : string,
  [Chat.Prompt; Chat.AnswerHeading;
   Chat.Answer (chain (retriever question) question); Chat.AnswerRule]).

Lemma chat_loop_answers (questions inputs : list string) :
  Forall (λ q, Chat.is_quit q = false) questions →
  Chat.chat_loop retriever chain (questions ++ inputs)
  = ((questions ≫= exchange) ++ (Chat.chat_loop retriever chain inputs).1,
     (Chat.chat_loop retriever chain inputs).2).
Proof.
  induction 1 as [|q questions Hq _ IH]; cbn.
  - by destruct (Chat.chat_loop retriever chain inputs).
  - rewrite Hq, IH. reflexivity.
Qed.

Lemma consumed_answers (questions inputs : list string) :
  Forall (λ q, Chat.is_quit q = false) questions →
  Chat.consumed (questions ++ inputs)
  = (length questions + Chat.consumed inputs)%nat.
Proof.
  induction 1 as [|q questions Hq _ IH]; cbn; [done|]. by rewrite Hq, IH.
Qed.

(** X17: the chat answers every question up to the first quit command, each
    with the chain run on what the retriever gives for the question as it
    was typed; at the quit command it says goodbye and ends, and no line
    after it is read. *)
Theorem chat_stops_at_quit (questions : list string) (cmd : string)
    (rest : list string) :
  Forall (λ q, Chat.is_quit q = false) questions →
  Chat.is_quit cmd = true →
  Chat.main retriever chain (questions ++ cmd :: rest)
  = (Chat.Banner :: Chat.BannerRule :: (questions ≫= exchange)
       ++ [Chat.Prompt; Chat.Goodbye],
     Chat.Quit)
  ∧ Chat.consumed (questions ++ cmd :: rest) = S (length questions).
Proof.
  intros Hquestions Hcmd. split.
  - unfold Chat.main. rewrite chat_loop_answers by done. cbn. by rewrite Hcmd.
  - rewrite consumed_answers by done. cbn. rewrite Hcmd. lia.
Qed.

(** X18: when no line of the input is a quit command the chat answers all
    of them, prompts once more, and ends with the EOFError of [input]. *)
Theorem chat_end_of_input (inputs : list string) :
  Forall (λ q, Chat.is_quit q = false) inputs →
  Chat.main retriever chain inputs
  = (Chat.Banner :: Chat.BannerRule :: (inputs ≫= exchange) ++ [Chat.Prompt],
     Chat.EOFError).
Proof.
  intros Hinputs. unfold Chat.main.
  rewrite <- (app_nil_r inputs) at 1. by rewrite chat_loop_answers.
Qed.

End ChatLoop.

(** ** The further statements at sample inputs *)

Lemma chunks_sizes_witness :
  (0 < 2)%nat
  ∧ (Forall (λ batch, (0 < length batch ≤ 2)%nat) (chunks 2 sample_text)
     ∧ (∀ i batch, chunks 2 sample_text !! i = Some batch →
          (S i < length (chunks 2 sample_text))%nat → length batch = 2%nat)
     ∧ concat (chunks 2 sample_text) = sample_text).
Proof. split; [lia|]. apply (chunks_sizes 2 sample_text). lia. Defined.

Lemma decade_of_year_witness :
  Forall (λ r, plain_cell (publication_year r))
    (normalise <$> [book_A ""; book_unrated])
  ∧ Forall (λ r, match publication_year r, decade r with
                 | Some y, Some d =>
                     d `mod` 10 = 0 ∧ d ≤ y < d + 10 ∧ - 10 ^ 15 ≤ d < 10 ^ 15
                 | None, None => True
                 | _, _ => False
                 end) (normalise <$> [book_A ""; book_unrated]).
Proof.
  assert (Forall (λ r, plain_cell (publication_year r))
            (normalise <$> [book_A ""; book_unrated])) as Hplain.
  { constructor; [cbn; unfold plain; lia|]. constructor; [exact I | constructor]. }
  split; [exact Hplain|].
  exact (decade_of_year [book_A ""; book_unrated] Hplain).
Defined.


Lemma book_number_format_witness :
  Forall plain_row (normalise <$> [book_A ""; book_unrated])
  ∧ (normalise <$> [book_A ""; book_unrated]) !! 0%nat = Some (normalise (book_A ""))
  ∧ ∃ d year rating count,
      book_pass (normalise <$> [book_A ""; book_unrated]) !! 0%nat = Some d
      ∧ page_content d =
          "Book: " +:+ title (normalise (book_A "")) +:+ " by " +:+
          join ", " (authors (normalise (book_A ""))) +:+
          ". Published in " +:+ year +:+ ", average rating " +:+ rating +:+
          " from " +:+ count +:+ " ratings."
      ∧ (∀ y, publication_year (normalise (book_A "")) = Some y →
           (Forall (λ r', is_Some (publication_year r'))
              (normalise <$> [book_A ""; book_unrated]) → year = str_int y)
           ∧ (Exists (λ r', publication_year r' = None)
                (normalise <$> [book_A ""; book_unrated]) →
              year = str_int y +:+ ".0"))
      ∧ (∀ c, ratings_count (normalise (book_A "")) = Some c →
           (Forall (λ r', is_Some (ratings_count r'))
              (normalise <$> [book_A ""; book_unrated]) → count = str_int c)
           ∧ (Exists (λ r', ratings_count r' = None)
                (normalise <$> [book_A ""; book_unrated]) →
              count = str_int c +:+ ".0")).
Proof.
  assert (Forall plain_row (normalise <$> [book_A ""; book_unrated])) as Hplain.
  { constructor; [split; cbn; unfold plain; lia|].
    constructor; [split; [exact I | cbn; unfold plain; lia] | constructor]. }
  split; [exact Hplain|]. split; [reflexivity|].
  apply (book_number_format (normalise <$> [book_A ""; book_unrated]) 0
           (normalise (book_A ""))); [exact Hplain | reflexivity].
Defined.

Lemma documents_layout_witness :
  ∃ docs,
    documents MergeSorter.sorter (normalise <$> [book_A ""; book_B ""]) = Ok docs
    ∧ doc_type <$> docs
      = replicate (length (normalise <$> [book_A ""; book_B ""])) "Book"
        ++ replicate
             (length (remove_dups ((normalise <$> [book_A ""; book_B ""])
                                     ≫= (λ r, strip <$> authors r))))
             "AuthorAggregate"
        ++ replicate
             (length (remove_dups (omap decade (normalise <$> [book_A ""; book_B ""]))))
             "DecadeAggregate"
        ++ replicate (50 `min` length (normalise <$> [book_A ""; book_B ""]))%nat
             "TopRated".
Proof.
  destruct (documents MergeSorter.sorter (normalise <$> [book_A ""; book_B ""]))
    as [docs|e] eqn:Hdocs.
  - exists docs. split; [reflexivity|].
    exact (documents_layout MergeSorter.sorter _ docs Hdocs).
  - exfalso. vm_compute in Hdocs. discriminate Hdocs.
Defined.

Lemma build_then_load_witness :
  Store.files fresh_world !! "BooksDB" = None
  ∧ ∃ ix w',
      Store.vector_store toy_embed toy_index "BooksDB" [aggDoc ("X", 2%nat)] fresh_world
      = (Ok ix, w')
      ∧ ix = toy_index (zip (toy_embed (page_content <$> [aggDoc ("X", 2%nat)]))
                          [aggDoc ("X", 2%nat)])
      ∧ Store.vector_store toy_embed toy_index "BooksDB" [] w'
        = (Ok ix, {| Store.files := Store.files w';
                     Store.calls := Store.calls w' ++ [Store.Load "BooksDB"] |}).
Proof.
  split; [reflexivity|].
  apply (build_then_load toy_embed toy_index "BooksDB" [aggDoc ("X", 2%nat)] []
           fresh_world).
  reflexivity.
Defined.

Lemma vector_py_with_saved_index_witness :
  Store.files stocked_world !! Script.db_location = Some (Store.Bundle [])
  ∧ ((records sample_text ≠ [] →
      Forall (λ j, literal j = true) (records sample_text) →
      Forall (λ r, is_Some (ratings_count r))
        (top_books MergeSorter.sorter (normalise <$> records sample_text)) →
      Script.vector_py MergeSorter.sorter toy_embed toy_index sample_text stocked_world
      = (Ok [], {| Store.files := Store.files stocked_world;
                   Store.calls := Store.calls stocked_world
                                  ++ [Store.Load Script.db_location] |}))
     ∧ (records sample_text ≠ [] →
        Forall (λ j, literal j = true) (records sample_text) →
        Exists (λ r, ratings_count r = None)
          (top_books MergeSorter.sorter (normalise <$> records sample_text)) →
        Script.vector_py MergeSorter.sorter toy_embed toy_index sample_text stocked_world
        = (Raise (ValueError "cannot convert float NaN to integer"), stocked_world))
     ∧ (records sample_text = [] →
        ∃ e, Script.vector_py MergeSorter.sorter toy_embed toy_index sample_text
               stocked_world = (Raise e, stocked_world))).
Proof.
  assert (Store.files stocked_world !! Script.db_location = Some (Store.Bundle []))
    as Hix by (by vm_compute).
  split; [exact Hix|].
  exact (vector_py_with_saved_index MergeSorter.sorter toy_embed toy_index
           sample_text stocked_world [] Hix).
Defined.

Lemma vector_py_first_run_witness :
  Store.files fresh_world !! Script.db_location = None
  ∧ records [Some (book_A ""); Some (book_B "")] ≠ []
  ∧ Forall (λ j, literal j = true) (records [Some (book_A ""); Some (book_B "")])
  ∧ Forall (λ r, is_Some (ratings_count r))
      (normalise <$> records [Some (book_A ""); Some (book_B "")])
  ∧ NoDup ((λ r, str_id (book_id r))
             <$> (normalise <$> records [Some (book_A ""); Some (book_B "")]))
  ∧ Forall (λ r, reserved (str_id (book_id r)) = false)
      (normalise <$> records [Some (book_A ""); Some (book_B "")])
  ∧ ∃ docs,
      documents MergeSorter.sorter
        (normalise <$> records [Some (book_A ""); Some (book_B "")]) = Ok docs
      ∧ Store.accepted docs
      ∧ Script.vector_py MergeSorter.sorter toy_embed toy_index
          [Some (book_A ""); Some (book_B "")] fresh_world
        = let ix := toy_index (zip (toy_embed (page_content <$> docs)) docs) in
          (Ok ix,
           {| Store.files :=
                <[Script.db_location := Store.Bundle ix]> (Store.files fresh_world);
              Store.calls := Store.calls fresh_world
                             ++ [Store.Embed (page_content <$> docs);
                                 Store.Save Script.db_location] |}).
Proof.
  assert (Store.files fresh_world !! Script.db_location = None) as Habsent
    by reflexivity.
  assert (records [Some (book_A ""); Some (book_B "")] ≠ []) as Hraw
    by discriminate.
  assert (Forall (λ j, literal j = true)
            (records [Some (book_A ""); Some (book_B "")])) as Hliteral.
  { cbn. constructor; [reflexivity|]. constructor; [reflexivity | constructor]. }
  assert (Forall (λ r, is_Some (ratings_count r))
            (normalise <$> records [Some (book_A ""); Some (book_B "")]))
    as Hcounts.
  { cbn. constructor; [eauto|]. constructor; [eauto|]. constructor. }
  assert (NoDup ((λ r, str_id (book_id r))
                   <$> (normalise <$> records [Some (book_A ""); Some (book_B "")])))
    as Hids.
  { vm_compute. apply NoDup_cons_2; [|apply NoDup_singleton].
    intros Hin%list_elem_of_singleton. discriminate Hin. }
  assert (Forall (λ r, reserved (str_id (book_id r)) = false)
            (normalise <$> records [Some (book_A ""); Some (book_B "")])) as Hfree.
  { cbn. constructor; [reflexivity|]. constructor; [reflexivity | constructor]. }
  split; [exact Habsent|]. split; [exact Hraw|]. split; [exact Hliteral|].
  split; [exact Hcounts|]. split; [exact Hids|]. split; [exact Hfree|].
  exact (vector_py_first_run MergeSorter.sorter toy_embed toy_index _ fresh_world
           Habsent Hraw Hliteral Hcounts Hids Hfree).
Defined.

Lemma chat_stops_at_quit_witness :
  Forall (λ q, Chat.is_quit q = false) ["Who wrote A?"]
  ∧ Chat.is_quit " Q " = true
  ∧ (Chat.main toy_retriever toy_chain (["Who wrote A?"] ++ " Q " :: ["never read"])
     = (Chat.Banner :: Chat.BannerRule
          :: (["Who wrote A?"] ≫= (λ question : string,
                [Chat.Prompt; Chat.AnswerHeading;
                 Chat.Answer (toy_chain (toy_retriever question) question);
                 Chat.AnswerRule]))
          ++ [Chat.Prompt; Chat.Goodbye],
        Chat.Quit)
     ∧ Chat.consumed (["Who wrote A?"] ++ " Q " :: ["never read"])
       = S (length ["Who wrote A?"])).
Proof.
  assert (Forall (λ q, Chat.is_quit q = false) ["Who wrote A?"]) as Hquestions.
  { constructor; [reflexivity | constructor]. }
  split; [exact Hquestions|]. split; [reflexivity|].
  exact (chat_stops_at_quit toy_retriever toy_chain ["Who wrote A?"] " Q "
           ["never read"] Hquestions eq_refl).
Defined.

Lemma chat_end_of_input_witness :
  Forall (λ q, Chat.is_quit q = false) ["Who wrote A?"; "quit"]
  ∧ Chat.main toy_retriever toy_chain ["Who wrote A?"; "quit"]
    = (Chat.Banner :: Chat.BannerRule
         :: (["Who wrote A?"; "quit"] ≫= (λ question : string,
               [Chat.Prompt; Chat.AnswerHeading;
                Chat.Answer (toy_chain (toy_retriever question) question);
                Chat.AnswerRule]))
         ++ [Chat.Prompt],
       Chat.EOFError).
Proof.
  assert (Forall (λ q, Chat.is_quit q = false) ["Who wrote A?"; "quit"]) as Hinputs.
  { constructor; [reflexivity|]. constructor; [reflexivity | constructor]. }
  split; [exact Hinputs|].
  exact (chat_end_of_input toy_retriever toy_chain _ Hinputs).
Defined.
